(** * ViewManager: camera, input and per-frame view set-up

    A shallow embedding of [Source/ViewManager.cpp] and the properties of its
    input handlers and frame preparer.

    Arithmetic.  The C++ types [float] and [double] are IEEE-754 binary32 and
    binary64.  They are modelled by [spec_float] values with the operations of
    the standard library's executable specification [SpecFloat], instantiated
    at [(prec, emax) = (24, 128)] and [(53, 1024)]: every operation rounds once,
    to nearest, ties to even.  Narrowing and promotion between the two formats
    are written out where C++ performs them implicitly.

    Collaborators.  The camera class, the matrix library and the shader manager
    are not part of this translation unit.  What the module reads from them is
    kept abstract: they are the fields of the class [Collaborators]. *)

From Stdlib Require Import ZArith Lia Bool List String.
From Stdlib Require Import Floats.SpecFloat.
Import ListNotations.

Local Open Scope Z_scope.

(** ** The two floating-point formats *)

Definition float : Type := spec_float.
Definition double : Type := spec_float.

(** Rounding of a value into the format [(prec, emax)]; exact when the value
    is representable there. *)
Definition round_to (prec emax : Z) (x : spec_float) : spec_float :=
  match x with
  | S754_finite s m e => binary_round prec emax s m e
  | _ => x
  end.

Module Flt.
Definition prec : Z := 24.
Definition emax : Z := 128.
Definition add : float -> float -> float := SFadd prec emax.
Definition sub : float -> float -> float := SFsub prec emax.
Definition mul : float -> float -> float := SFmul prec emax.
Definition div : float -> float -> float := SFdiv prec emax.
Definition ltb : float -> float -> bool := SFltb.
Definition leb : float -> float -> bool := SFleb.
Definition of_Z (z : Z) : float := binary_normalize prec emax z 0 false.
Definition valid : float -> bool := valid_binary prec emax.
End Flt.

Module Dbl.
Definition prec : Z := 53.
Definition emax : Z := 1024.
Definition sub : double -> double -> double := SFsub prec emax.
Definition leb : double -> double -> bool := SFleb.
Definition of_Z (z : Z) : double := binary_normalize prec emax z 0 false.
Definition valid : double -> bool := valid_binary prec emax.
End Dbl.

(** [static_cast<float>(d)] and the implicit narrowing of an assignment. *)
Definition double_to_float (d : double) : float := round_to Flt.prec Flt.emax d.
(** The usual arithmetic conversion of a [float] operand next to a [double]. *)
Definition float_to_double (f : float) : double := round_to Dbl.prec Dbl.emax f.

Definition is_nan (x : spec_float) : bool :=
  match x with S754_nan => true | _ => false end.

Definition is_finite (x : spec_float) : bool :=
  match x with S754_zero _ | S754_finite _ _ _ => true | _ => false end.

(** ** Rounding, as arithmetic on integers *)

(** Round to nearest, ties to even, of [m / 2 ^ n]. *)
Definition rne (m n : Z) : Z :=
  let q := m / 2 ^ n in
  match 2 * (m mod 2 ^ n) ?= 2 ^ n with
  | Lt => q
  | Eq => if Z.even q then q else q + 1
  | Gt => q + 1
  end.

(** The position of a remainder [r] below [2 ^ n]. *)
Definition loc_of_rem (r n : Z) : location :=
  if r =? 0 then loc_Exact else loc_Inexact (2 * r ?= 2 ^ n).

(** What [k] halvings of [m] leave in a shift record. *)
Definition shr_inv (m : Z) (k : nat) (mrs : shr_record) : Prop :=
  shr_m mrs = m / 2 ^ Z.of_nat k
  /\ loc_of_shr_record mrs = loc_of_rem (m mod 2 ^ Z.of_nat k) (Z.of_nat k).

(** A result that is not a NaN and carries the sign [s]. *)
Definition same_sign_not_nan (s : bool) (x : spec_float) : Prop :=
  match x with
  | S754_zero s' | S754_infinity s' | S754_finite s' _ _ => s' = s
  | S754_nan => False
  end.

(** The result of rounding a positive number [X], counted in units of
    [2 ^ B], into the format [(prec, emax)]: a finite result has the value of
    [X] rounded at its exponent, an overflow happens at or above
    [2 ^ emax] only. *)
Definition rounds_to (prec emax B : Z) (s : bool) (X : Z) (r : spec_float)
  : Prop :=
  let n := fexp prec emax (Zdigits2 X + B) - B in
  match r with
  | S754_zero s' => s' = s /\ rne X n = 0
  | S754_finite s' m' e' =>
      s' = s /\ B <= e' /\ Zpos m' * 2 ^ (e' - B) = rne X n * 2 ^ n
  | S754_infinity s' => s' = s /\ 2 ^ (emax - B) <= rne X n * 2 ^ n
  | S754_nan => False
  end.

(** The literals of the translation unit. *)
Definition lit_0_0f : float := S754_zero false.
Definition lit_0_1f : float := S754_finite false 13421773 (-27).
Definition lit_0_5f : float := S754_finite false 8388608 (-24).
Definition lit_1_0f : float := S754_finite false 8388608 (-23).
Definition lit_2_0f : float := S754_finite false 8388608 (-22).
Definition lit_2_5f : float := S754_finite false 10485760 (-22).
Definition lit_5_0f : float := S754_finite false 10485760 (-21).
Definition lit_10_0f : float := S754_finite false 10485760 (-20).
Definition lit_12_0f : float := S754_finite false 12582912 (-20).
Definition lit_100_0f : float := S754_finite false 13107200 (-17).

(** ** Vectors *)

Record vec3 : Type := mkvec3 { vx : float; vy : float; vz : float }.

(** [v + w], [v - w], [s * v] and [v * s], component by component. *)
Definition vec3_add (v w : vec3) : vec3 :=
  mkvec3 (Flt.add (vx v) (vx w)) (Flt.add (vy v) (vy w)) (Flt.add (vz v) (vz w)).
Definition vec3_sub (v w : vec3) : vec3 :=
  mkvec3 (Flt.sub (vx v) (vx w)) (Flt.sub (vy v) (vy w)) (Flt.sub (vz v) (vz w)).
Definition scalar_mul_vec3 (s : float) (v : vec3) : vec3 :=
  mkvec3 (Flt.mul s (vx v)) (Flt.mul s (vy v)) (Flt.mul s (vz v)).
Definition vec3_mul_scalar (v : vec3) (s : float) : vec3 :=
  mkvec3 (Flt.mul (vx v) s) (Flt.mul (vy v) s) (Flt.mul (vz v) s).

(** ** The windowing library as seen from this module *)

Inductive Key : Type :=
  GLFW_KEY_W | GLFW_KEY_S | GLFW_KEY_A | GLFW_KEY_D | GLFW_KEY_Q | GLFW_KEY_E
| GLFW_KEY_ESCAPE | GLFW_KEY_O | GLFW_KEY_P.

Definition Key_eq_dec (a b : Key) : {a = b} + {a <> b}.
Proof. decide equality. Defined.

Inductive KeyAction : Type := GLFW_RELEASE | GLFW_PRESS.

Definition is_press (a : KeyAction) : bool :=
  match a with GLFW_PRESS => true | GLFW_RELEASE => false end.

(** A window handle; the null pointer is [None]. *)
Definition GLFWwindow : Type := positive.

Inductive Callback : Type := cb_Mouse_Position_Callback | cb_Mouse_Scroll_Callback.

Inductive GLenum : Type := GL_BLEND | GL_SRC_ALPHA | GL_ONE_MINUS_SRC_ALPHA.

Definition WINDOW_WIDTH : Z := 1000.
Definition WINDOW_HEIGHT : Z := 800.
Definition g_ViewName : string := "view".
Definition g_ProjectionName : string := "projection".

(** ** The camera and the other collaborators *)

(** The public data members of the camera that this module reads and writes;
    whatever else the camera object holds is [camera_rest]. *)
Record Camera (R : Type) : Type := mkCamera {
  Position : vec3;
  Front : vec3;
  Up : vec3;
  Zoom : float;
  camera_rest : R
}.

Arguments mkCamera {R} _ _ _ _ _.
Arguments Position {R} _.
Arguments Front {R} _.
Arguments Up {R} _.
Arguments Zoom {R} _.
Arguments camera_rest {R} _.

Definition set_Position {R} (p : vec3) (c : Camera R) : Camera R :=
  mkCamera p (Front c) (Up c) (Zoom c) (camera_rest c).
Definition set_Front {R} (f : vec3) (c : Camera R) : Camera R :=
  mkCamera (Position c) f (Up c) (Zoom c) (camera_rest c).
Definition set_Up {R} (u : vec3) (c : Camera R) : Camera R :=
  mkCamera (Position c) (Front c) u (Zoom c) (camera_rest c).
Definition set_Zoom {R} (z : float) (c : Camera R) : Camera R :=
  mkCamera (Position c) (Front c) (Up c) z (camera_rest c).

(** Everything the module calls but does not define: the camera's methods and
    the matrix library.  No property of these functions is assumed. *)
Class Collaborators : Type := {
  mat4 : Type;
  CameraRest : Type;
  Camera_new : Camera CameraRest;
  Camera_ProcessMouseMovement :
    float -> float -> Camera CameraRest -> Camera CameraRest;
  Camera_GetViewMatrix : Camera CameraRest -> mat4;
  glm_radians : float -> float;
  glm_perspective : float -> float -> float -> float -> mat4;
  glm_ortho : float -> float -> float -> float -> float -> float -> mat4;
  glm_cross : vec3 -> vec3 -> vec3;
  glm_normalize : vec3 -> vec3
}.

(** A free interpretation of the collaborators, used to run the model on
    concrete inputs: a matrix is the call that built it, [cross] and
    [normalize] follow their textbook formulas. *)
Inductive sym_mat4 : Type :=
| sym_view (position front up : vec3)
| sym_perspective (fovy aspect near far : float)
| sym_ortho (left right bottom top near far : float).

Definition sym_cross (a b : vec3) : vec3 :=
  mkvec3 (Flt.sub (Flt.mul (vy a) (vz b)) (Flt.mul (vy b) (vz a)))
         (Flt.sub (Flt.mul (vz a) (vx b)) (Flt.mul (vz b) (vx a)))
         (Flt.sub (Flt.mul (vx a) (vy b)) (Flt.mul (vx b) (vy a))).

Definition sym_normalize (v : vec3) : vec3 :=
  let d := Flt.add (Flt.add (Flt.mul (vx v) (vx v)) (Flt.mul (vy v) (vy v)))
                   (Flt.mul (vz v) (vz v)) in
  vec3_mul_scalar v (Flt.div lit_1_0f (SFsqrt Flt.prec Flt.emax d)).

#[export] Instance symbolic : Collaborators := {|
  mat4 := sym_mat4;
  CameraRest := unit;
  Camera_new := mkCamera (mkvec3 lit_0_0f lit_0_0f lit_0_0f)
                         (mkvec3 lit_0_0f lit_0_0f (SFopp lit_1_0f))
                         (mkvec3 lit_0_0f lit_1_0f lit_0_0f)
                         (Flt.of_Z 45) tt;
  Camera_ProcessMouseMovement := fun _ _ c => c;
  Camera_GetViewMatrix := fun c => sym_view (Position c) (Front c) (Up c);
  glm_radians := fun d => d;
  glm_perspective := sym_perspective;
  glm_ortho := sym_ortho;
  glm_cross := sym_cross;
  glm_normalize := sym_normalize
|}.

(** ** State, effects and the code *)

Section ViewManagerModel.
Context {ext : Collaborators}.

Definition ShaderManager : Type := positive.

(** What [std::cout << ... << std::endl] prints. *)
Inductive Output : Type :=
| out_text (s : string)
| out_text_float (s : string) (f : float).

(** The calls that leave the module, in the order they are made. *)
Inductive Call : Type :=
| glfwCreateWindow (width height : Z) (title : string)
| cout (o : Output)
| glfwTerminate
| glfwMakeContextCurrent (w : GLFWwindow)
| glfwSetCursorPosCallback (w : GLFWwindow) (cb : Callback)
| glfwSetScrollCallback (w : GLFWwindow) (cb : Callback)
| glEnable (cap : GLenum)
| glBlendFunc (sfactor dfactor : GLenum)
| glfwSetWindowShouldClose (w : option GLFWwindow) (value : bool)
| ProcessMouseMovement (xoffset yoffset : float)
| setMat4Value (name : string) (m : mat4)
| setVec3Value (name : string) (v : vec3).

(** The variables of the anonymous namespace, followed by the two
    function-local statics, each of which hides [gCameraSpeedMultiplier]
    inside its function.  [g_pCamera] is the object the pointer refers to
    once the constructor has run. *)
Record Globals : Type := mkGlobals {
  g_pCamera : Camera CameraRest;
  gLastX : float;
  gLastY : float;
  gFirstMouse : bool;
  gCameraSpeedMultiplier : float;
  gDeltaTime : float;
  gLastFrame : float;
  bOrthographicProjection : bool;
  position_cb_gCameraSpeedMultiplier : float;
  scroll_cb_gCameraSpeedMultiplier : float
}.

Definition set_g_pCamera (c : Camera CameraRest) (g : Globals) : Globals :=
  mkGlobals c (gLastX g) (gLastY g) (gFirstMouse g) (gCameraSpeedMultiplier g)
    (gDeltaTime g) (gLastFrame g) (bOrthographicProjection g)
    (position_cb_gCameraSpeedMultiplier g) (scroll_cb_gCameraSpeedMultiplier g).
Definition set_gLastX (v : float) (g : Globals) : Globals :=
  mkGlobals (g_pCamera g) v (gLastY g) (gFirstMouse g) (gCameraSpeedMultiplier g)
    (gDeltaTime g) (gLastFrame g) (bOrthographicProjection g)
    (position_cb_gCameraSpeedMultiplier g) (scroll_cb_gCameraSpeedMultiplier g).
Definition set_gLastY (v : float) (g : Globals) : Globals :=
  mkGlobals (g_pCamera g) (gLastX g) v (gFirstMouse g) (gCameraSpeedMultiplier g)
    (gDeltaTime g) (gLastFrame g) (bOrthographicProjection g)
    (position_cb_gCameraSpeedMultiplier g) (scroll_cb_gCameraSpeedMultiplier g).
Definition set_gFirstMouse (v : bool) (g : Globals) : Globals :=
  mkGlobals (g_pCamera g) (gLastX g) (gLastY g) v (gCameraSpeedMultiplier g)
    (gDeltaTime g) (gLastFrame g) (bOrthographicProjection g)
    (position_cb_gCameraSpeedMultiplier g) (scroll_cb_gCameraSpeedMultiplier g).
Definition set_gDeltaTime (v : float) (g : Globals) : Globals :=
  mkGlobals (g_pCamera g) (gLastX g) (gLastY g) (gFirstMouse g)
    (gCameraSpeedMultiplier g) v (gLastFrame g) (bOrthographicProjection g)
    (position_cb_gCameraSpeedMultiplier g) (scroll_cb_gCameraSpeedMultiplier g).
Definition set_gLastFrame (v : float) (g : Globals) : Globals :=
  mkGlobals (g_pCamera g) (gLastX g) (gLastY g) (gFirstMouse g)
    (gCameraSpeedMultiplier g) (gDeltaTime g) v (bOrthographicProjection g)
    (position_cb_gCameraSpeedMultiplier g) (scroll_cb_gCameraSpeedMultiplier g).
Definition set_bOrthographicProjection (v : bool) (g : Globals) : Globals :=
  mkGlobals (g_pCamera g) (gLastX g) (gLastY g) (gFirstMouse g)
    (gCameraSpeedMultiplier g) (gDeltaTime g) (gLastFrame g) v
    (position_cb_gCameraSpeedMultiplier g) (scroll_cb_gCameraSpeedMultiplier g).
Definition set_position_cb_gCameraSpeedMultiplier (v : float) (g : Globals)
  : Globals :=
  mkGlobals (g_pCamera g) (gLastX g) (gLastY g) (gFirstMouse g)
    (gCameraSpeedMultiplier g) (gDeltaTime g) (gLastFrame g)
    (bOrthographicProjection g) v (scroll_cb_gCameraSpeedMultiplier g).
Definition set_scroll_cb_gCameraSpeedMultiplier (v : float) (g : Globals)
  : Globals :=
  mkGlobals (g_pCamera g) (gLastX g) (gLastY g) (gFirstMouse g)
    (gCameraSpeedMultiplier g) (gDeltaTime g) (gLastFrame g)
    (bOrthographicProjection g) (position_cb_gCameraSpeedMultiplier g) v.

(** The member variables of the object. *)
Record ViewManager : Type := mkViewManager {
  m_pShaderManager : option ShaderManager;
  m_pWindow : option GLFWwindow
}.

Record World : Type := mkWorld {
  globals : Globals;
  this : ViewManager;
  trace : list Call
}.

(** A state monad over [World]. *)
Definition M (A : Type) : Type := World -> A * World.

Definition ret {A} (a : A) : M A := fun w => (a, w).
Definition bind {A B} (m : M A) (k : A -> M B) : M B :=
  fun w => let (a, w') := m w in k a w'.

Notation "x <- m ;; k" := (bind m (fun x => k))
  (at level 61, m at next level, right associativity).
Notation "m ;;; k" := (bind m (fun _ => k))
  (at level 61, right associativity).

Definition read {A} (f : Globals -> A) : M A := fun w => (f (globals w), w).
Definition write (upd : Globals -> Globals) : M unit :=
  fun w => (tt, mkWorld (upd (globals w)) (this w) (trace w)).
Definition member {A} (f : ViewManager -> A) : M A := fun w => (f (this w), w).
Definition set_m_pWindow (p : option GLFWwindow) : M unit :=
  fun w => (tt, mkWorld (globals w)
                        (mkViewManager (m_pShaderManager (this w)) p) (trace w)).
Definition call (c : Call) : M unit :=
  fun w => (tt, mkWorld (globals w) (this w) (trace w ++ [c])).
Definition when (b : bool) (m : M unit) : M unit := if b then m else ret tt.
Definition exec {A} (m : M A) (w : World) : World := snd (m w).

(** What the windowing library answers during one call into the module:
    the polled key states and the clock. *)
Record Env : Type := mkEnv {
  glfwGetKey : Key -> KeyAction;
  glfwGetTime : double
}.

(** The constructor: member and camera initialisation on top of the static
    initialisers of the namespace. *)
Definition ViewManager_ctor (pShaderManager : option ShaderManager) : World :=
  let cam :=
    set_Zoom (Flt.of_Z 80)
      (set_Up (mkvec3 lit_0_0f lit_1_0f lit_0_0f)
        (set_Front (mkvec3 lit_0_0f (SFopp lit_0_5f) (SFopp lit_2_0f))
          (set_Position (mkvec3 lit_0_0f (Flt.of_Z 5) lit_12_0f) Camera_new))) in
  mkWorld
    (mkGlobals cam
       (Flt.div (Flt.of_Z WINDOW_WIDTH) lit_2_0f)
       (Flt.div (Flt.of_Z WINDOW_HEIGHT) lit_2_0f)
       true lit_1_0f lit_0_0f lit_0_0f false lit_1_0f lit_1_0f)
    (mkViewManager pShaderManager None)
    [].

Definition CreateDisplayWindow (windowTitle : string)
    (created : option GLFWwindow) : M (option GLFWwindow) :=
  call (glfwCreateWindow WINDOW_WIDTH WINDOW_HEIGHT windowTitle) ;;;
  match created with
  | None =>
      call (cout (out_text "Failed to create GLFW window")) ;;;
      call glfwTerminate ;;;
      ret None
  | Some window =>
      call (glfwMakeContextCurrent window) ;;;
      call (glfwSetCursorPosCallback window cb_Mouse_Position_Callback) ;;;
      call (glfwSetScrollCallback window cb_Mouse_Scroll_Callback) ;;;
      call (glEnable GL_BLEND) ;;;
      call (glBlendFunc GL_SRC_ALPHA GL_ONE_MINUS_SRC_ALPHA) ;;;
      set_m_pWindow (Some window) ;;;
      ret (Some window)
  end.

(** The two clamping tests that follow each update of a speed multiplier. *)
Definition clamp_speed (m : float) : float :=
  let m := if Flt.ltb m lit_0_1f then lit_0_1f else m in
  if Flt.ltb lit_10_0f m then lit_10_0f else m.

Definition Mouse_Position_Callback (xMousePos yMousePos : double) : M unit :=
  first <- read gFirstMouse ;;
  when first
    (write (set_gLastX (double_to_float xMousePos)) ;;;
     write (set_gLastY (double_to_float yMousePos)) ;;;
     write (set_gFirstMouse false)) ;;;
  lastX <- read gLastX ;;
  lastY <- read gLastY ;;
  let xOffset := double_to_float (Dbl.sub xMousePos (float_to_double lastX)) in
  let yOffset := double_to_float (Dbl.sub (float_to_double lastY) yMousePos) in
  write (set_gLastX (double_to_float xMousePos)) ;;;
  write (set_gLastY (double_to_float yMousePos)) ;;;
  let sensitivity := lit_2_5f in
  let xOffset := Flt.mul xOffset sensitivity in
  let yOffset := Flt.mul yOffset sensitivity in
  call (ProcessMouseMovement xOffset yOffset) ;;;
  write (fun g =>
    set_g_pCamera (Camera_ProcessMouseMovement xOffset yOffset (g_pCamera g)) g) ;;;
  m <- read position_cb_gCameraSpeedMultiplier ;;
  let m := clamp_speed (Flt.add m (Flt.mul yOffset lit_0_1f)) in
  write (set_position_cb_gCameraSpeedMultiplier m) ;;;
  call (cout (out_text_float "Camera Speed Multiplier: " m)).

Definition Mouse_Scroll_Callback (xOffset yOffset : double) : M unit :=
  m <- read scroll_cb_gCameraSpeedMultiplier ;;
  let m := clamp_speed (Flt.add m (Flt.mul (double_to_float yOffset) lit_0_1f)) in
  write (set_scroll_cb_gCameraSpeedMultiplier m) ;;;
  call (cout (out_text_float "Camera Speed Multiplier: " m)).

(** [g_pCamera->Position += d] and [-= d]. *)
Definition move_camera (op : vec3 -> vec3 -> vec3)
    (d : Camera CameraRest -> vec3) : M unit :=
  write (fun g =>
    let c := g_pCamera g in set_g_pCamera (set_Position (op (Position c) (d c)) c) g).

Definition right_axis (c : Camera CameraRest) : vec3 :=
  glm_normalize (glm_cross (Front c) (Up c)).

Definition ProcessKeyboardEvents (env : Env) : M unit :=
  dt <- read gDeltaTime ;;
  mult <- read gCameraSpeedMultiplier ;;
  let cameraSpeed := Flt.mul (Flt.mul dt lit_5_0f) mult in
  let pressed k := is_press (glfwGetKey env k) in
  when (pressed GLFW_KEY_W)
    (move_camera vec3_add (fun c => scalar_mul_vec3 cameraSpeed (Front c))) ;;;
  when (pressed GLFW_KEY_S)
    (move_camera vec3_sub (fun c => scalar_mul_vec3 cameraSpeed (Front c))) ;;;
  when (pressed GLFW_KEY_A)
    (move_camera vec3_sub (fun c => vec3_mul_scalar (right_axis c) cameraSpeed)) ;;;
  when (pressed GLFW_KEY_D)
    (move_camera vec3_add (fun c => vec3_mul_scalar (right_axis c) cameraSpeed)) ;;;
  when (pressed GLFW_KEY_Q)
    (move_camera vec3_add (fun c => scalar_mul_vec3 cameraSpeed (Up c))) ;;;
  when (pressed GLFW_KEY_E)
    (move_camera vec3_sub (fun c => scalar_mul_vec3 cameraSpeed (Up c))) ;;;
  window <- member m_pWindow ;;
  when (pressed GLFW_KEY_ESCAPE) (call (glfwSetWindowShouldClose window true)).

Definition aspect_ratio : float :=
  Flt.div (Flt.of_Z WINDOW_WIDTH) (Flt.of_Z WINDOW_HEIGHT).

Definition perspective_projection (c : Camera CameraRest) : mat4 :=
  glm_perspective (glm_radians (Zoom c)) aspect_ratio lit_0_1f lit_100_0f.

Definition orthographic_projection : mat4 :=
  glm_ortho (SFopp lit_10_0f) lit_10_0f (SFopp lit_10_0f) lit_10_0f
            lit_0_1f lit_100_0f.

(** The body of [PrepareSceneView] up to the choice of the projection: it
    leaves the locals [view] and [projection]. *)
Definition PrepareSceneView_matrices (env : Env) : M (mat4 * mat4) :=
  let currentFrame := double_to_float (glfwGetTime env) in
  lastFrame <- read gLastFrame ;;
  write (set_gDeltaTime (Flt.sub currentFrame lastFrame)) ;;;
  write (set_gLastFrame currentFrame) ;;;
  ProcessKeyboardEvents env ;;;
  cam <- read g_pCamera ;;
  let view := Camera_GetViewMatrix cam in
  let projection := perspective_projection cam in
  when (is_press (glfwGetKey env GLFW_KEY_O))
    (write (set_bOrthographicProjection true)) ;;;
  when (is_press (glfwGetKey env GLFW_KEY_P))
    (write (set_bOrthographicProjection false)) ;;;
  ortho <- read bOrthographicProjection ;;
  let projection :=
    if ortho then orthographic_projection else perspective_projection cam in
  ret (view, projection).

Definition PrepareSceneView (env : Env) : M unit :=
  vp <- PrepareSceneView_matrices env ;;
  let (view, projection) := vp in
  shader <- member m_pShaderManager ;;
  match shader with
  | None => ret tt
  | Some _ =>
      call (setMat4Value g_ViewName view) ;;;
      call (setMat4Value g_ProjectionName projection) ;;;
      cam <- read g_pCamera ;;
      call (setVec3Value "viewPosition" (Position cam))
  end.

(** ** Runs of the module *)

(** One entry into the module from the host program or from the windowing
    library's event dispatch. *)
Inductive Event : Type :=
| ev_CreateDisplayWindow (windowTitle : string) (created : option GLFWwindow)
| ev_CursorPos (xMousePos yMousePos : double)
| ev_Scroll (xOffset yOffset : double)
| ev_Frame (env : Env).

Definition step (e : Event) : M unit :=
  match e with
  | ev_CreateDisplayWindow title created =>
      CreateDisplayWindow title created ;;; ret tt
  | ev_CursorPos x y => Mouse_Position_Callback x y
  | ev_Scroll x y => Mouse_Scroll_Callback x y
  | ev_Frame env => PrepareSceneView env
  end.

Fixpoint run (evs : list Event) (w : World) : World :=
  match evs with
  | [] => w
  | e :: evs' => run evs' (exec (step e) w)
  end.

End ViewManagerModel.

(** ** Sample inputs *)

Definition no_keys : Key -> KeyAction := fun _ => GLFW_RELEASE.

Definition only_key (k : Key) : Key -> KeyAction :=
  fun k' => if Key_eq_dec k' k then GLFW_PRESS else GLFW_RELEASE.

Definition both_keys (k1 k2 : Key) : Key -> KeyAction :=
  fun k' => if Key_eq_dec k' k1 then GLFW_PRESS
            else if Key_eq_dec k' k2 then GLFW_PRESS else GLFW_RELEASE.

(** The largest finite single-precision number, as a double. *)
Definition dbl_FLT_MAX : double :=
  Eval vm_compute in float_to_double (SFmax_float Flt.prec Flt.emax).

(** The double-precision numbers 0.5, 0.75, 400.1, 300.3 and [2 ^ 128]. *)
Definition dbl_0_5 : double := S754_finite false 4503599627370496 (-53).
Definition dbl_0_75 : double := S754_finite false 6755399441055744 (-53).
Definition dbl_400_1 : double := S754_finite false 7038633636370842 (-44).
Definition dbl_300_3 : double := S754_finite false 5282933469138125 (-44).
Definition dbl_2p128 : double := S754_finite false 4503599627370496 76.

Arguments Flt.add : simpl never.
Arguments Flt.sub : simpl never.
Arguments Flt.mul : simpl never.
Arguments Flt.div : simpl never.
Arguments Flt.ltb : simpl never.
Arguments Flt.leb : simpl never.
Arguments Flt.of_Z : simpl never.
Arguments Dbl.sub : simpl never.
Arguments Dbl.leb : simpl never.
Arguments double_to_float : simpl never.
Arguments float_to_double : simpl never.
Arguments clamp_speed : simpl never.
Arguments vec3_add : simpl never.
Arguments vec3_sub : simpl never.
Arguments scalar_mul_vec3 : simpl never.
Arguments vec3_mul_scalar : simpl never.

(** ** Claim-side vocabulary *)

Section Vocabulary.
Context {ext : Collaborators}.

(** The six movement keys in the order in which they are polled. *)
Definition movement_keys : list Key :=
  [GLFW_KEY_W; GLFW_KEY_S; GLFW_KEY_A; GLFW_KEY_D; GLFW_KEY_Q; GLFW_KEY_E].

(** The signed axis of a movement key: [true] moves along the axis, [false]
    against it. *)
Definition key_axis (k : Key) (c : Camera CameraRest) : option (bool * vec3) :=
  match k with
  | GLFW_KEY_W => Some (true, Front c)
  | GLFW_KEY_S => Some (false, Front c)
  | GLFW_KEY_A => Some (false, glm_normalize (glm_cross (Front c) (Up c)))
  | GLFW_KEY_D => Some (true, glm_normalize (glm_cross (Front c) (Up c)))
  | GLFW_KEY_Q => Some (true, Up c)
  | GLFW_KEY_E => Some (false, Up c)
  | _ => None
  end.

(** A position moved by [speed] along a signed axis. *)
Definition displaced (speed : float) (p : vec3) (sa : bool * vec3) : vec3 :=
  if fst sa then vec3_add p (scalar_mul_vec3 speed (snd sa))
  else vec3_sub p (scalar_mul_vec3 speed (snd sa)).

Definition displaced_by_key (env : Env) (speed : float)
    (c : Camera CameraRest) (p : vec3) (k : Key) : vec3 :=
  match key_axis k c with
  | Some sa => if is_press (glfwGetKey env k) then displaced speed p sa else p
  | None => p
  end.

(** The camera speed of one keyboard poll, as its formula reads the
    namespace-level variables. *)
Definition keyboard_speed (g : Globals) : float :=
  Flt.mul (Flt.mul (gDeltaTime g) lit_5_0f) (gCameraSpeedMultiplier g).

(** The call made for the Escape key, if any. *)
Definition escape_calls (env : Env) (w : World) : list Call :=
  if is_press (glfwGetKey env GLFW_KEY_ESCAPE)
  then [glfwSetWindowShouldClose (m_pWindow (this w)) true] else [].

(** The frame-timing update at the head of [PrepareSceneView]. *)
Definition frame_timing (env : Env) (g : Globals) : Globals :=
  let currentFrame := double_to_float (glfwGetTime env) in
  set_gLastFrame currentFrame
    (set_gDeltaTime (Flt.sub currentFrame (gLastFrame g)) g).

(** The projection-mode flag after the polls of O and then P. *)
Definition polled_flag (env : Env) (old : bool) : bool :=
  if is_press (glfwGetKey env GLFW_KEY_P) then false
  else if is_press (glfwGetKey env GLFW_KEY_O) then true
  else old.

(** The world between the keyboard poll of a frame and its polls of O and
    P. *)
Definition after_keyboard (env : Env) (w : World) : World :=
  exec (ProcessKeyboardEvents env)
       (mkWorld (frame_timing env (globals w)) (this w) (trace w)).


(** The offsets handed to the camera among a sequence of calls. *)
Definition forwarded_offsets (t : list Call) : list (float * float) :=
  flat_map (fun c => match c with
                     | ProcessMouseMovement x y => [(x, y)]
                     | _ => []
                     end) t.

(** A cursor coordinate that single precision holds exactly. *)
Definition single_representable (d : double) : Prop :=
  is_finite d = true /\ float_to_double (double_to_float d) = d.

(** A clock reading: a finite double-precision number whose conversion to
    single precision does not overflow. *)
Definition clock_reading (t : double) : bool :=
  Dbl.valid t && is_finite t && is_finite (double_to_float t).

(** The frames of [evs] read a clock that never runs backwards, starting at or
    above [last]. *)
Fixpoint clock_monotone (last : double) (evs : list Event) : bool :=
  match evs with
  | [] => true
  | ev_Frame env :: evs' =>
      clock_reading (glfwGetTime env) && Dbl.leb last (glfwGetTime env)
      && clock_monotone (glfwGetTime env) evs'
  | _ :: evs' => clock_monotone last evs'
  end.

(** The writes of the should-close flag among a sequence of calls. *)
Definition close_writes (t : list Call) : list (option GLFWwindow * bool) :=
  flat_map (fun c => match c with
                     | glfwSetWindowShouldClose w v => [(w, v)]
                     | _ => []
                     end) t.

(** The writes into the shader-parameter sink among a sequence of calls. *)
Definition shader_writes (t : list Call) : list Call :=
  filter (fun c => match c with
                   | setMat4Value _ _ | setVec3Value _ _ => true
                   | _ => false
                   end) t.

(** The speed multiplier stays inside the closed interval of the two
    literals. *)
Definition in_speed_range (m : float) : Prop :=
  Flt.leb lit_0_1f m = true /\ Flt.leb m lit_10_0f = true.

End Vocabulary.

(** ** Vocabulary for runs *)

Section RunVocabulary.
Context {ext : Collaborators}.

(** A cursor event whose two coordinates are finite numbers. *)
Definition cursor_position_is_finite (e : Event) : Prop :=
  match e with
  | ev_CursorPos x y => is_finite x = true /\ is_finite y = true
  | _ => True
  end.

Definition is_scroll (e : Event) : bool :=
  match e with ev_Scroll _ _ => true | _ => false end.

Definition is_frame (e : Event) : bool :=
  match e with ev_Frame _ => true | _ => false end.

(** The events of a run with the scroll events taken out. *)
Definition without_scroll (evs : list Event) : list Event :=
  filter (fun e => negb (is_scroll e)) evs.

Definition is_cout (c : Call) : bool :=
  match c with cout _ => true | _ => false end.

(** The calls of a trace other than the log lines. *)
Definition quiet (t : list Call) : list Call :=
  filter (fun c => negb (is_cout c)) t.

(** Everything in a world except the static of the scroll handler and the
    log lines. *)
Definition observable (w : World) : Globals * ViewManager * list Call :=
  (set_scroll_cb_gCameraSpeedMultiplier lit_1_0f (globals w),
   this w,
   quiet (trace w)).

(** A frame in which the key [k] is pressed, and its negation on events. *)
Definition frame_presses (k : Key) (e : Event) : bool :=
  match e with
  | ev_Frame env => is_press (glfwGetKey env k)
  | _ => false
  end.

Definition never_presses (k : Key) (e : Event) : Prop :=
  frame_presses k e = false.

(** The handle of the last successful window creation of a run. *)
Definition last_created (evs : list Event) (init : option GLFWwindow)
  : option GLFWwindow :=
  fold_left (fun p e => match e with
                        | ev_CreateDisplayWindow _ (Some window) => Some window
                        | _ => p
                        end) evs init.

(** The position of the last cursor event of a run. *)
Definition last_cursor (evs : list Event) : option (double * double) :=
  fold_left (fun p e => match e with
                        | ev_CursorPos x y => Some (x, y)
                        | _ => p
                        end) evs None.

(** Numbers that are not negative, and numbers that are not positive, by
    their shape: a zero of either sign belongs to both. *)
Definition not_negative (r : spec_float) : Prop :=
  match r with
  | S754_zero _ => True
  | S754_finite s _ _ | S754_infinity s => s = false
  | S754_nan => False
  end.

Definition not_positive (r : spec_float) : Prop :=
  match r with
  | S754_zero _ => True
  | S754_finite s _ _ | S754_infinity s => s = true
  | S754_nan => False
  end.

(** A cursor coordinate inside the window area or beyond its right or lower
    edge: a valid, finite double that is not below zero. *)
Definition screen_coordinate (d : double) : Prop :=
  Dbl.valid d = true /\ is_finite d = true
  /\ Dbl.leb (S754_zero false) d = true.

End RunVocabulary.

(** ** The lifetime of the camera object *)

(** The constructor allocates the camera with [new] and stores its address in
    the namespace-level pointer [g_pCamera]; the destructor deletes what that
    pointer refers to.  The heap is the list of live camera addresses and the
    next fresh address. *)
Record CameraHeap : Type := mkCameraHeap {
  heap_g_pCamera : option positive;
  heap_live : list positive;
  heap_next : positive
}.

(** The object and the heap together. *)
Record Lifetime : Type := mkLifetime {
  life_this : ViewManager;
  life_heap : CameraHeap
}.

(** The static initialiser [g_pCamera = nullptr] on an empty heap. *)
Definition heap_initial : CameraHeap := mkCameraHeap None [] 1%positive.

(** [ViewManager::ViewManager]: the member initialisation and
    [g_pCamera = new Camera()].  The pointer is overwritten whatever it
    held. *)
Definition ViewManager_construct (pShaderManager : option ShaderManager)
    (h : CameraHeap) : Lifetime :=
  let p := heap_next h in
  mkLifetime (mkViewManager pShaderManager None)
             (mkCameraHeap (Some p) (p :: heap_live h) (Pos.succ p)).

(** [ViewManager::~ViewManager]: both members are set to null; the camera is
    deleted, and the pointer set to null, only when the pointer is not
    null. *)
Definition ViewManager_destruct (l : Lifetime) : Lifetime :=
  let h := life_heap l in
  mkLifetime (mkViewManager None None)
    match heap_g_pCamera h with
    | Some p =>
        mkCameraHeap None (remove Pos.eq_dec p (heap_live h)) (heap_next h)
    | None => h
    end.

(** Constructions and destructions of managers, in program order. *)
Inductive LifeOp : Type :=
| op_construct (pShaderManager : option ShaderManager)
| op_destruct (object : ViewManager).

Definition life_step (op : LifeOp) (h : CameraHeap) : CameraHeap :=
  match op with
  | op_construct sh => life_heap (ViewManager_construct sh h)
  | op_destruct object => life_heap (ViewManager_destruct (mkLifetime object h))
  end.

Definition life_run (ops : list LifeOp) (h : CameraHeap) : CameraHeap :=
  fold_left (fun h op => life_step op h) ops h.

(** The pointer is null or refers to a live camera, and every live address is
    below the next fresh one. *)
Definition heap_ok (h : CameraHeap) : Prop :=
  (forall p, heap_g_pCamera h = Some p -> In p (heap_live h))
  /\ (forall p, In p (heap_live h) -> (p < heap_next h)%positive)
  /\ NoDup (heap_live h).

(** The offsets of a cursor event, from the position stored before it. *)
Definition cursor_xOffset (lastX : float) (xMousePos : double) : float :=
  Flt.mul (double_to_float (Dbl.sub xMousePos (float_to_double lastX))) lit_2_5f.

Definition cursor_yOffset (lastY : float) (yMousePos : double) : float :=
  Flt.mul (double_to_float (Dbl.sub (float_to_double lastY) yMousePos)) lit_2_5f.

Arguments quiet : simpl never.
Arguments cursor_xOffset : simpl never.
Arguments cursor_yOffset : simpl never.

(** * Proofs *)

(** ** Binary digits *)

Lemma digits2_pos_size p : digits2_pos p = Pos.size p.
Proof. induction p; cbn; congruence. Qed.

Lemma digits2_pos_bounds p :
  2 ^ (Zpos (digits2_pos p) - 1) <= Zpos p < 2 ^ Zpos (digits2_pos p).
Proof.
  rewrite digits2_pos_size. split.
  - pose proof (Pos.size_le p) as H.
    assert (H' : 2 ^ Zpos (Pos.size p) <= 2 * Zpos p).
    { change (2 * Zpos p) with (Zpos p~0). rewrite <- Pos2Z.inj_pow. exact H. }
    replace (Zpos (Pos.size p)) with (Zpos (Pos.size p) - 1 + 1) in H' by lia.
    rewrite Z.pow_add_r in H' by lia. lia.
  - pose proof (Pos.size_gt p) as H.
    change 2 with (Zpos 2). rewrite <- Pos2Z.inj_pow. exact H.
Qed.

Lemma Zdigits2_bounds x :
  0 < x -> 2 ^ (Zdigits2 x - 1) <= x < 2 ^ Zdigits2 x.
Proof. destruct x; try lia. intros _. apply digits2_pos_bounds. Qed.

Lemma Zdigits2_pos x : 0 < x -> 0 < Zdigits2 x.
Proof. destruct x; cbn; lia. Qed.

Lemma Zdigits2_unique x d :
  0 < d -> 2 ^ (d - 1) <= x < 2 ^ d -> Zdigits2 x = d.
Proof.
  intros Hd [Hlo Hhi].
  assert (Hx : 0 < x) by (pose proof (Z.pow_pos_nonneg 2 (d - 1)); lia).
  pose proof (Zdigits2_bounds x Hx) as [Hlo' Hhi'].
  pose proof (Zdigits2_pos x Hx) as Hpos.
  destruct (Z.lt_trichotomy (Zdigits2 x) d) as [Hlt|[Heq|Hgt]]; [|assumption|].
  - exfalso. assert (2 ^ Zdigits2 x <= 2 ^ (d - 1)) by (apply Z.pow_le_mono_r; lia). lia.
  - exfalso. assert (2 ^ d <= 2 ^ (Zdigits2 x - 1)) by (apply Z.pow_le_mono_r; lia). lia.
Qed.

Lemma Zdigits2_mul_pow2 x k :
  0 < x -> 0 <= k -> Zdigits2 (x * 2 ^ k) = Zdigits2 x + k.
Proof.
  intros Hx Hk. pose proof (Zdigits2_bounds x Hx) as [Hlo Hhi].
  pose proof (Zdigits2_pos x Hx).
  assert (0 < 2 ^ k) by (apply Z.pow_pos_nonneg; lia).
  apply Zdigits2_unique; [lia|].
  replace (Zdigits2 x + k - 1) with (Zdigits2 x - 1 + k) by lia.
  rewrite !Z.pow_add_r by lia. nia.
Qed.

Lemma Zdigits2_mono x y : 0 < x -> x <= y -> Zdigits2 x <= Zdigits2 y.
Proof.
  intros Hx Hxy.
  pose proof (Zdigits2_bounds x Hx) as [Hlo _].
  pose proof (Zdigits2_bounds y ltac:(lia)) as [_ Hhi].
  destruct (Z_lt_le_dec (Zdigits2 y) (Zdigits2 x)) as [Hlt|]; [|assumption].
  exfalso.
  assert (2 ^ Zdigits2 y <= 2 ^ (Zdigits2 x - 1)).
  { apply Z.pow_le_mono_r; [lia|]. lia. }
  lia.
Qed.

(** ** Iterated halving with round and sticky bits *)

Lemma iter_pos_nat {A} (f : A -> A) p x :
  iter_pos f p x = Nat.iter (Pos.to_nat p) f x.
Proof.
  revert x. induction p as [p IH|p IH|]; intros x; cbn [iter_pos].
  - rewrite !IH, Pos2Nat.inj_xI.
    replace (S (2 * Pos.to_nat p))%nat with (Pos.to_nat p + (Pos.to_nat p + 1))%nat by lia.
    rewrite !Nat.iter_add. cbn. reflexivity.
  - rewrite !IH, Pos2Nat.inj_xO.
    replace (2 * Pos.to_nat p)%nat with (Pos.to_nat p + Pos.to_nat p)%nat by lia.
    now rewrite Nat.iter_add.
  - reflexivity.
Qed.

Lemma shr_1_m mrs :
  0 <= shr_m mrs -> shr_m (shr_1 mrs) = shr_m mrs / 2.
Proof.
  destruct mrs as [m r s]. cbn [shr_m]. intros Hm.
  destruct m as [|[p|p|]|p]; cbn [shr_1 shr_m]; try lia.
  - reflexivity.
  - rewrite Pos2Z.inj_xI. apply Z.div_unique with 1; lia.
  - rewrite Pos2Z.inj_xO. apply Z.div_unique with 0; lia.
  - reflexivity.
Qed.

Lemma shr_1_r mrs :
  0 <= shr_m mrs -> shr_r (shr_1 mrs) = Z.odd (shr_m mrs).
Proof.
  destruct mrs as [m r s]. cbn [shr_m]. intros Hm.
  destruct m as [|[p|p|]|p]; cbn [shr_1 shr_r]; try reflexivity; lia.
Qed.

Lemma shr_1_s mrs : shr_s (shr_1 mrs) = shr_r mrs || shr_s mrs.
Proof. destruct mrs as [m r s]. destruct m as [|[p|p|]|[p|p|]]; reflexivity. Qed.

Lemma loc_exact_iff mrs :
  loc_of_shr_record mrs = loc_Exact <-> shr_r mrs || shr_s mrs = false.
Proof. destruct mrs as [m [|] [|]]; cbn; split; congruence. Qed.

Lemma shr_inv_0 m : shr_inv m 0 (Build_shr_record m false false).
Proof.
  split; cbn [shr_m Z.of_nat].
  - now rewrite Z.pow_0_r, Z.div_1_r.
  - now rewrite Z.pow_0_r, Z.mod_1_r.
Qed.

Lemma shr_inv_step m k mrs :
  0 <= m -> shr_inv m k mrs -> shr_inv m (S k) (shr_1 mrs).
Proof.
  intros Hm [Hq Hloc].
  assert (Hpow : 0 < 2 ^ Z.of_nat k) by (apply Z.pow_pos_nonneg; lia).
  assert (Hq0 : 0 <= shr_m mrs).
  { rewrite Hq. apply Z.div_pos; lia. }
  assert (Hsucc : 2 ^ Z.of_nat (S k) = 2 ^ Z.of_nat k * 2).
  { rewrite Nat2Z.inj_succ, Z.pow_succ_r by lia. lia. }
  pose proof (Z.mod_pos_bound m (2 ^ Z.of_nat k) Hpow) as Hrem.
  split.
  - rewrite shr_1_m by assumption. rewrite Hq, Hsucc.
    now rewrite Z.div_div by lia.
  - assert (Hs : shr_r mrs || shr_s mrs = negb (m mod 2 ^ Z.of_nat k =? 0)).
    { pose proof (loc_exact_iff mrs) as Hex. rewrite Hloc in Hex.
      unfold loc_of_rem in Hex.
      destruct (m mod 2 ^ Z.of_nat k =? 0); cbn.
      - now apply Hex.
      - destruct (shr_r mrs || shr_s mrs); [reflexivity|].
        destruct Hex as [_ Hex]. specialize (Hex eq_refl). discriminate. }
    pose proof (shr_1_r mrs Hq0) as Hr. pose proof (shr_1_s mrs) as Hs'.
    rewrite Hs in Hs'. rewrite Hq in Hr.
    assert (Hmod : m mod 2 ^ Z.of_nat (S k) =
                   m mod 2 ^ Z.of_nat k + 2 ^ Z.of_nat k * ((m / 2 ^ Z.of_nat k) mod 2)).
    { rewrite Hsucc. apply Z.rem_mul_r; lia. }
    rewrite Hmod. rewrite Zodd_mod in Hr.
    destruct (shr_1 mrs) as [m' r' s']. cbn [shr_r shr_s] in Hr, Hs'. subst r' s'.
    unfold loc_of_rem. rewrite Hsucc.
    pose proof (Z.mod_pos_bound (m / 2 ^ Z.of_nat k) 2 ltac:(lia)) as Hbit.
    destruct (Z.eqb_spec ((m / 2 ^ Z.of_nat k) mod 2) 1) as [Hb|Hb].
    + rewrite Hb. cbn [loc_of_shr_record].
      destruct (Z.eqb_spec (m mod 2 ^ Z.of_nat k) 0) as [Hz|Hz]; cbn [negb].
      * rewrite Hz.
        destruct (Z.eqb_spec (0 + 2 ^ Z.of_nat k * 1) 0); [lia|].
        f_equal. symmetry. apply Z.compare_eq_iff. lia.
      * destruct (Z.eqb_spec (m mod 2 ^ Z.of_nat k + 2 ^ Z.of_nat k * 1) 0); [lia|].
        f_equal. symmetry. apply Z.compare_gt_iff. lia.
    + assert (Hb0 : (m / 2 ^ Z.of_nat k) mod 2 = 0) by lia. rewrite Hb0.
      rewrite Z.mul_0_r, Z.add_0_r. cbn [loc_of_shr_record].
      destruct (Z.eqb_spec (m mod 2 ^ Z.of_nat k) 0) as [Hz|Hz]; cbn [negb].
      * reflexivity.
      * f_equal. symmetry. apply Z.compare_lt_iff. lia.
Qed.

Lemma shr_inv_iter m k :
  0 <= m -> shr_inv m k (Nat.iter k shr_1 (Build_shr_record m false false)).
Proof.
  intros Hm. induction k as [|k IH].
  - apply shr_inv_0.
  - cbn [Nat.iter]. now apply shr_inv_step.
Qed.

Lemma round_nearest_even_rem m n :
  0 <= n ->
  round_nearest_even (m / 2 ^ n) (loc_of_rem (m mod 2 ^ n) n) = rne m n.
Proof.
  intros Hn. unfold rne, loc_of_rem.
  assert (0 < 2 ^ n) by (apply Z.pow_pos_nonneg; lia).
  destruct (Z.eqb_spec (m mod 2 ^ n) 0) as [Hz|Hz].
  - rewrite Hz. cbn [round_nearest_even].
    destruct (Z.compare_spec (2 * 0) (2 ^ n)) as [H0|H0|H0];
      try reflexivity; lia.
  - cbn [round_nearest_even]. now destruct (2 * (m mod 2 ^ n) ?= 2 ^ n).
Qed.

(** Shifting right by [n > 0] places and rounding is [rne]. *)
Lemma shr_round m e p :
  0 <= m ->
  let (mrs, e') := shr (Build_shr_record m false false) e (Zpos p) in
  round_nearest_even (shr_m mrs) (loc_of_shr_record mrs) = rne m (Zpos p)
  /\ e' = e + Zpos p.
Proof.
  intros Hm. cbn [shr]. rewrite iter_pos_nat.
  destruct (shr_inv_iter m (Pos.to_nat p) Hm) as [Hq Hloc].
  rewrite positive_nat_Z in Hq, Hloc.
  rewrite Hq, Hloc. split; [apply round_nearest_even_rem; lia|reflexivity].
Qed.

(** ** Properties of [rne] *)

Lemma rne_bounds m n :
  m / 2 ^ n <= rne m n <= m / 2 ^ n + 1.
Proof.
  unfold rne. destruct (2 * (m mod 2 ^ n) ?= 2 ^ n); try lia.
  destruct (Z.even (m / 2 ^ n)); lia.
Qed.

Lemma rne_nonneg m n : 0 <= m -> 0 <= n -> 0 <= rne m n.
Proof.
  intros Hm Hn. pose proof (rne_bounds m n).
  assert (0 < 2 ^ n) by (apply Z.pow_pos_nonneg; lia).
  assert (0 <= m / 2 ^ n) by (apply Z.div_pos; lia). lia.
Qed.

Lemma rne_exact a n : 0 <= n -> rne (a * 2 ^ n) n = a.
Proof.
  intros Hn. unfold rne.
  assert (0 < 2 ^ n) by (apply Z.pow_pos_nonneg; lia).
  rewrite Z.mod_mul, Z.div_mul by lia.
  destruct (Z.compare_spec (2 * 0) (2 ^ n)); try reflexivity; lia.
Qed.

Lemma rne_scale m n k :
  0 <= n -> 0 <= k -> rne (m * 2 ^ k) (n + k) = rne m n.
Proof.
  intros Hn Hk. unfold rne.
  assert (0 < 2 ^ n) by (apply Z.pow_pos_nonneg; lia).
  assert (0 < 2 ^ k) by (apply Z.pow_pos_nonneg; lia).
  rewrite Z.pow_add_r by lia.
  rewrite Z.div_mul_cancel_r by lia.
  rewrite Z.mul_mod_distr_r by lia.
  assert (Hc : (2 * (m mod 2 ^ n * 2 ^ k) ?= 2 ^ n * 2 ^ k) =
               (2 * (m mod 2 ^ n) ?= 2 ^ n)).
  { destruct (Z.compare_spec (2 * (m mod 2 ^ n)) (2 ^ n)) as [E|E|E].
    - apply Z.compare_eq_iff. nia.
    - apply Z.compare_lt_iff. nia.
    - apply Z.compare_gt_iff. nia. }
  now rewrite Hc.
Qed.

Lemma rne_mono m1 m2 n :
  0 <= n -> m1 <= m2 -> rne m1 n <= rne m2 n.
Proof.
  intros Hn Hle.
  assert (Hp : 0 < 2 ^ n) by (apply Z.pow_pos_nonneg; lia).
  pose proof (Z.div_le_mono m1 m2 (2 ^ n) Hp Hle) as Hq.
  destruct (Z.eq_dec (m1 / 2 ^ n) (m2 / 2 ^ n)) as [Heq|Hne].
  - pose proof (Z.div_mod m1 (2 ^ n) ltac:(lia)) as H1.
    pose proof (Z.div_mod m2 (2 ^ n) ltac:(lia)) as H2.
    assert (Hr : m1 mod 2 ^ n <= m2 mod 2 ^ n) by (rewrite Heq in H1; lia).
    unfold rne. rewrite Heq.
    destruct (Z.compare_spec (2 * (m1 mod 2 ^ n)) (2 ^ n)),
             (Z.compare_spec (2 * (m2 mod 2 ^ n)) (2 ^ n));
      try lia; destruct (Z.even (m2 / 2 ^ n)); lia.
  - pose proof (rne_bounds m1 n). pose proof (rne_bounds m2 n). lia.
Qed.

Lemma rne_below_half m n :
  0 <= m -> 0 <= n -> 2 * m < 2 ^ n -> rne m n = 0.
Proof.
  intros Hm Hn Hlt. unfold rne.
  rewrite Z.mod_small, Z.div_small by lia.
  destruct (Z.compare_spec (2 * m) (2 ^ n)); try reflexivity; lia.
Qed.

(** ** The shape of a rounded result *)

Section Rounding.
Variables prec emax : Z.
Hypothesis prec_pos : 0 < prec.

Lemma fexp_ge_emin k : emin prec emax <= fexp prec emax k.
Proof. unfold fexp. lia. Qed.

Lemma fexp_mono k1 k2 : k1 <= k2 -> fexp prec emax k1 <= fexp prec emax k2.
Proof. unfold fexp. lia. Qed.

Lemma iter_shr_1_nonneg k mrs :
  0 <= shr_m mrs -> 0 <= shr_m (Nat.iter k shr_1 mrs).
Proof.
  intros H. induction k as [|k IH]; [exact H|].
  change (Nat.iter (S k) shr_1 mrs) with (shr_1 (Nat.iter k shr_1 mrs)).
  rewrite shr_1_m by assumption. apply Z.div_pos; lia.
Qed.

Lemma shr_nonneg mrs e n :
  0 <= shr_m mrs -> 0 <= shr_m (fst (shr mrs e n)).
Proof.
  intros H. destruct n; cbn [shr fst]; try assumption.
  rewrite iter_pos_nat. now apply iter_shr_1_nonneg.
Qed.

Lemma shr_record_of_loc_m m l : shr_m (shr_record_of_loc m l) = m.
Proof. now destruct l as [|[| |]]. Qed.

Lemma round_nearest_even_nonneg m l : 0 <= m -> 0 <= round_nearest_even m l.
Proof.
  intros H. destruct l as [|[| |]]; cbn; try lia. destruct (Z.even m); lia.
Qed.

Lemma binary_round_aux_shape s m e l :
  0 <= m -> same_sign_not_nan s (binary_round_aux prec emax s m e l).
Proof.
  intros Hm. unfold binary_round_aux, shr_fexp.
  pose proof (shr_nonneg (shr_record_of_loc m l) e
                (fexp prec emax (Zdigits2 m + e) - e)) as H1.
  rewrite shr_record_of_loc_m in H1. specialize (H1 Hm).
  destruct (shr (shr_record_of_loc m l) e (fexp prec emax (Zdigits2 m + e) - e))
    as [mrs' e']. cbn [fst] in H1.
  set (m1 := round_nearest_even (shr_m mrs') (loc_of_shr_record mrs')).
  assert (Hm1 : 0 <= m1) by now apply round_nearest_even_nonneg.
  pose proof (shr_nonneg (shr_record_of_loc m1 loc_Exact) e'
                (fexp prec emax (Zdigits2 m1 + e') - e')) as H2.
  rewrite shr_record_of_loc_m in H2. specialize (H2 Hm1).
  destruct (shr (shr_record_of_loc m1 loc_Exact) e' (fexp prec emax (Zdigits2 m1 + e') - e'))
    as [mrs'' e'']. cbn [fst] in H2.
  destruct (shr_m mrs'') as [|q|q]; cbn; try reflexivity; try lia.
  destruct (e'' <=? emax - prec); reflexivity.
Qed.

Lemma binary_round_shape s m e :
  same_sign_not_nan s (binary_round prec emax s m e).
Proof.
  unfold binary_round.
  destruct (shl_align m e (fexp prec emax (Zpos (digits2_pos m) + e))) as [mz ez].
  apply binary_round_aux_shape. lia.
Qed.

Lemma binary_normalize_shape z e :
  0 <= z -> same_sign_not_nan false (binary_normalize prec emax z e false).
Proof.
  intros Hz. destruct z as [|p|p]; cbn [binary_normalize]; try lia.
  - reflexivity.
  - apply binary_round_shape.
Qed.

Lemma binary_normalize_not_nan z e s :
  binary_normalize prec emax z e s <> S754_nan.
Proof.
  destruct z as [|p|p]; cbn [binary_normalize]; try discriminate.
  - pose proof (binary_round_shape false p e) as H.
    intros Heq. now rewrite Heq in H.
  - pose proof (binary_round_shape true p e) as H.
    intros Heq. now rewrite Heq in H.
Qed.

End Rounding.

(** ** The value of a rounded result *)

Lemma pos_iter_xO m d : Zpos (Pos.iter xO m d) = Zpos m * 2 ^ Zpos d.
Proof.
  induction d as [|d IH] using Pos.peano_ind.
  - cbn [Pos.iter]. rewrite Pos2Z.inj_xO. lia.
  - rewrite Pos.iter_succ, Pos2Z.inj_xO, IH, Pos2Z.inj_succ, Z.pow_succ_r by lia.
    lia.
Qed.

Lemma shl_align_spec m e e' :
  snd (shl_align m e e') = Z.min e e'
  /\ Zpos (fst (shl_align m e e')) = Zpos m * 2 ^ (e - Z.min e e').
Proof.
  unfold shl_align. destruct (e' - e) as [|d|d] eqn:Hd; cbn [fst snd].
  - replace (Z.min e e') with e by lia. rewrite Z.sub_diag. lia.
  - replace (Z.min e e') with e by lia. rewrite Z.sub_diag. lia.
  - replace (Z.min e e') with e' by lia. split; [reflexivity|].
    rewrite pos_iter_xO. f_equal. f_equal. lia.
Qed.

Section RoundingValue.
Variables prec emax : Z.
Hypothesis prec_pos : 0 < prec.
Hypothesis prec_lt_emax : prec < emax.

Lemma rne_le_pow2 X n :
  0 < X -> 0 <= n -> Zdigits2 X - n <= prec -> rne X n <= 2 ^ prec.
Proof.
  intros HX Hn Hd.
  pose proof (Zdigits2_bounds X HX) as [_ Hhi].
  pose proof (Zdigits2_pos X HX) as Hdp.
  assert (Hpp : 0 < 2 ^ prec) by (apply Z.pow_pos_nonneg; lia).
  destruct (Z_lt_le_dec (Zdigits2 X) n) as [Hlt|Hge].
  - rewrite rne_below_half; try lia.
    assert (2 ^ Zdigits2 X <= 2 ^ (n - 1)) by (apply Z.pow_le_mono_r; lia).
    replace n with (n - 1 + 1) at 1 by lia.
    rewrite Z.pow_add_r by lia. lia.
  - assert (Hle : X <= 2 ^ (Zdigits2 X - n) * 2 ^ n).
    { rewrite <- Z.pow_add_r by lia.
      replace (Zdigits2 X - n + n) with (Zdigits2 X) by lia. lia. }
    pose proof (rne_mono _ _ n Hn Hle) as Hm.
    rewrite rne_exact in Hm by lia.
    assert (2 ^ (Zdigits2 X - n) <= 2 ^ prec) by (apply Z.pow_le_mono_r; lia).
    lia.
Qed.

Lemma binary_round_value B s m e :
  B <= e -> B <= emin prec emax ->
  rounds_to prec emax B s (Zpos m * 2 ^ (e - B)) (binary_round prec emax s m e).
Proof.
  intros HBe HBmin.
  set (X := Zpos m * 2 ^ (e - B)).
  assert (Hpw : 0 < 2 ^ (e - B)) by (apply Z.pow_pos_nonneg; lia).
  assert (HX : 0 < X) by (unfold X; lia).
  assert (HdX : Zdigits2 X + B = Zpos (digits2_pos m) + e).
  { unfold X. rewrite Zdigits2_mul_pow2 by lia. cbn [Zdigits2]. lia. }
  unfold rounds_to. rewrite HdX.
  set (fe := fexp prec emax (Zpos (digits2_pos m) + e)).
  pose proof (fexp_ge_emin prec emax (Zpos (digits2_pos m) + e)) as Hfe.
  fold fe in Hfe.
  assert (Hdn : Zdigits2 X - (fe - B) <= prec).
  { unfold fe, fexp. lia. }
  pose proof (rne_le_pow2 X (fe - B) HX ltac:(lia) Hdn) as Hqle.
  pose proof (rne_nonneg X (fe - B) ltac:(lia) ltac:(lia)) as Hq0.
  (* the alignment *)
  unfold binary_round. fold fe.
  destruct (shl_align_spec m e fe) as [Hez Hmz].
  destruct (shl_align m e fe) as [mz ez]. cbn [fst snd] in Hez, Hmz.
  assert (HdZ : Zdigits2 (Zpos mz) + ez = Zpos (digits2_pos m) + e).
  { rewrite Hmz.
    rewrite Zdigits2_mul_pow2 by lia. cbn [Zdigits2]. lia. }
  assert (HXz : X = Zpos mz * 2 ^ (ez - B)).
  { unfold X. rewrite Hmz, <- Z.mul_assoc, <- Z.pow_add_r by lia.
    f_equal. f_equal. lia. }
  (* the first shift and the rounding *)
  unfold binary_round_aux, shr_fexp. rewrite HdZ. fold fe.
  change (shr_record_of_loc (Zpos mz) loc_Exact)
    with (Build_shr_record (Zpos mz) false false).
  assert (Hfirst :
    let (mrs', e') := shr (Build_shr_record (Zpos mz) false false) ez (fe - ez) in
    round_nearest_even (shr_m mrs') (loc_of_shr_record mrs') = rne X (fe - B)
    /\ e' = fe).
  { destruct (fe - ez) as [|p|p] eqn:Hsh; try lia.
    - cbn [shr shr_m loc_of_shr_record round_nearest_even]. split; [|lia].
      rewrite HXz. replace (ez - B) with (fe - B) by lia.
      now rewrite rne_exact by lia.
    - pose proof (shr_round (Zpos mz) ez p ltac:(lia)) as Hr.
      destruct (shr (Build_shr_record (Zpos mz) false false) ez (Zpos p))
        as [mrs' e']. destruct Hr as [Hr He']. split; [|lia].
      rewrite Hr, HXz. replace (fe - B) with (Zpos p + (ez - B)) by lia.
      now rewrite rne_scale by lia. }
  destruct (shr (Build_shr_record (Zpos mz) false false) ez (fe - ez))
    as [mrs' e']. destruct Hfirst as [Hq He']. rewrite Hq, He'.
  set (q := rne X (fe - B)) in *.
  change (shr_record_of_loc q loc_Exact) with (Build_shr_record q false false).
  (* the second shift *)
  assert (Hcases : q = 0 \/ (0 < q < 2 ^ prec) \/ q = 2 ^ prec) by lia.
  destruct Hcases as [Hz|[Hmid|Htop]].
  - rewrite Hz. cbn [Zdigits2].
    assert (Hsh : fexp prec emax (0 + fe) - fe <= 0) by (unfold fexp; lia).
    destruct (fexp prec emax (0 + fe) - fe) as [|p|p]; try lia;
      cbn [shr shr_m]; auto.
  - assert (Hdq : Zdigits2 q <= prec).
    { pose proof (Zdigits2_bounds q ltac:(lia)) as [Hlo _].
      destruct (Z_lt_le_dec prec (Zdigits2 q)) as [Hlt|]; [|assumption].
      exfalso.
      assert (2 ^ prec <= 2 ^ (Zdigits2 q - 1)) by (apply Z.pow_le_mono_r; lia).
      lia. }
    assert (Hsh : fexp prec emax (Zdigits2 q + fe) - fe <= 0) by (unfold fexp; lia).
    assert (Hover : emax - prec < fe -> 2 ^ (emax - B) <= q * 2 ^ (fe - B)).
    { intros Hbig.
      assert (Hfeq : fe = Zpos (digits2_pos m) + e - prec)
        by (unfold fe, fexp, emin in *; lia).
      assert (Hn : fe - B = Zdigits2 X - prec) by lia.
      pose proof (Zdigits2_bounds X HX) as [HloX _].
      assert (Hrep : 2 ^ (Zdigits2 X - 1) = 2 ^ (prec - 1) * 2 ^ (fe - B)).
      { rewrite <- Z.pow_add_r by lia. f_equal. lia. }
      assert (Hm : rne (2 ^ (prec - 1) * 2 ^ (fe - B)) (fe - B) <= q)
        by (apply rne_mono; lia).
      rewrite rne_exact in Hm by lia.
      assert (Hp : 0 < 2 ^ (fe - B)) by (apply Z.pow_pos_nonneg; lia).
      assert (Hle : 2 ^ (emax - B) <= 2 ^ (prec - 1) * 2 ^ (fe - B)).
      { rewrite <- Z.pow_add_r by lia. apply Z.pow_le_mono_r; lia. }
      nia. }
    destruct (fexp prec emax (Zdigits2 q + fe) - fe) as [|p|p]; try lia;
      cbn [shr shr_m]; (destruct q as [|q'|q']; try lia);
      (destruct (Z.leb_spec fe (emax - prec));
       [split; [reflexivity|split; [lia|reflexivity]]
       |split; [reflexivity|apply Hover; lia]]).
  - assert (Hdq : Zdigits2 q = prec + 1).
    { apply Zdigits2_unique; [lia|]. rewrite Htop.
      replace (prec + 1 - 1) with prec by lia.
      rewrite Z.pow_add_r by lia. lia. }
    rewrite Hdq.
    assert (Hsh : fexp prec emax (prec + 1 + fe) - fe = 1) by (unfold fexp; lia).
    rewrite Hsh. cbn [shr iter_pos].
    pose proof (shr_1_m (Build_shr_record q false false)) as Hm1.
    cbn [shr_m] in Hm1. specialize (Hm1 ltac:(lia)). rewrite Hm1.
    assert (Hhalf : q / 2 = 2 ^ (prec - 1)).
    { rewrite Htop. replace prec with (prec - 1 + 1) at 1 by lia.
      rewrite Z.pow_add_r by lia. change (2 ^ 1) with 2.
      now rewrite Z.div_mul by lia. }
    rewrite Hhalf.
    assert (Hpp : 0 < 2 ^ (prec - 1)) by (apply Z.pow_pos_nonneg; lia).
    destruct (2 ^ (prec - 1)) as [|h|h] eqn:Hh; try lia.
    destruct (Z.leb_spec (fe + 1) (emax - prec)).
    + split; [reflexivity|split; [lia|]].
      rewrite <- Hh, Htop, <- !Z.pow_add_r by lia. f_equal. lia.
    + split; [reflexivity|].
      rewrite Htop, <- Z.pow_add_r by lia. apply Z.pow_le_mono_r; lia.
Qed.

(** Rounding is monotone on positive numbers. *)
Lemma round_value_mono B X1 X2 :
  B <= emin prec emax -> 0 < X1 -> X1 <= X2 ->
  let n1 := fexp prec emax (Zdigits2 X1 + B) - B in
  let n2 := fexp prec emax (Zdigits2 X2 + B) - B in
  rne X1 n1 * 2 ^ n1 <= rne X2 n2 * 2 ^ n2.
Proof.
  intros HB HX1 Hle n1 n2.
  pose proof (Zdigits2_mono X1 X2 HX1 Hle) as Hd.
  pose proof (fexp_ge_emin prec emax (Zdigits2 X1 + B)) as Hf1.
  pose proof (fexp_ge_emin prec emax (Zdigits2 X2 + B)) as Hf2.
  pose proof (fexp_mono prec emax (Zdigits2 X1 + B) (Zdigits2 X2 + B) ltac:(lia))
    as Hfm.
  assert (Hn1 : 0 <= n1) by (unfold n1; lia).
  assert (Hn2 : 0 <= n2) by (unfold n2; lia).
  assert (Hn : n1 <= n2) by (unfold n1, n2; lia).
  assert (Hp1 : 0 < 2 ^ n1) by (apply Z.pow_pos_nonneg; lia).
  assert (Hp2 : 0 < 2 ^ n2) by (apply Z.pow_pos_nonneg; lia).
  destruct (Z.eq_dec n1 n2) as [Heq|Hne].
  - rewrite <- Heq. pose proof (rne_mono X1 X2 n1 Hn1 Hle). nia.
  - assert (Hlt : n1 < n2) by lia.
    set (d1 := Zdigits2 X1) in *. set (d2 := Zdigits2 X2) in *.
    pose proof (Zdigits2_bounds X1 HX1) as [_ Hhi1]. fold d1 in Hhi1.
    pose proof (Zdigits2_bounds X2 ltac:(lia)) as [Hlo2 _]. fold d2 in Hlo2.
    pose proof (Zdigits2_pos X1 HX1) as Hd1p. fold d1 in Hd1p.
    assert (Hn2eq : n2 = d2 - prec) by (unfold n1, n2, fexp in *; lia).
    assert (Hd12 : d1 < d2).
    { destruct (Z_lt_le_dec d1 d2) as [|Hge]; [assumption|]. exfalso.
      assert (d1 = d2) by lia. unfold n1, n2 in Hlt. fold d1 d2 in Hlt.
      replace d2 with d1 in Hlt by assumption. lia. }
    (* the upper result is at least the lowest number of its binade *)
    assert (Hlow : 2 ^ (d2 - 1) <= rne X2 n2 * 2 ^ n2).
    { assert (Hrep : 2 ^ (d2 - 1) = 2 ^ (prec - 1) * 2 ^ n2).
      { rewrite <- Z.pow_add_r by lia. f_equal. lia. }
      assert (Hm : rne (2 ^ (prec - 1) * 2 ^ n2) n2 <= rne X2 n2)
        by (apply rne_mono; lia).
      rewrite rne_exact in Hm by lia. rewrite Hrep. nia. }
    (* the lower result is at most the next power of two *)
    assert (Hup : rne X1 n1 * 2 ^ n1 <= 2 ^ d1).
    { assert (Hpd : 0 < 2 ^ d1) by (apply Z.pow_pos_nonneg; lia).
      destruct (Z_lt_le_dec d1 n1) as [Hsmall|Hbig].
      - rewrite rne_below_half; try lia.
        assert (2 ^ d1 <= 2 ^ (n1 - 1)) by (apply Z.pow_le_mono_r; lia).
        replace n1 with (n1 - 1 + 1) at 1 by lia.
        rewrite Z.pow_add_r by lia. lia.
      - assert (Hrep : 2 ^ d1 = 2 ^ (d1 - n1) * 2 ^ n1).
        { rewrite <- Z.pow_add_r by lia. f_equal. lia. }
        assert (Hm : rne X1 n1 <= rne (2 ^ (d1 - n1) * 2 ^ n1) n1)
          by (apply rne_mono; lia).
        rewrite rne_exact in Hm by lia. rewrite Hrep. nia. }
    assert (2 ^ d1 <= 2 ^ (d2 - 1)) by (apply Z.pow_le_mono_r; lia).
    lia.
Qed.

End RoundingValue.


Ltac unfold_m :=
  unfold exec, bind, ret, read, write, member, call, when, set_m_pWindow,
         move_camera in *.

Ltac destruct_world w :=
  let c := fresh "cam" in
  destruct w as [[c ? ? ? ? ? ? ? ? ?] [? ?] ?]; destruct c as [? ? ? ? ?].

(** ** Multiplication commutes *)

Lemma SFmul_comm prec emax (x y : spec_float) :
  SFmul prec emax x y = SFmul prec emax y x.
Proof.
  destruct x as [sx|sx| |sx mx ex], y as [sy|sy| |sy my ey]; cbn;
    rewrite ?(xorb_comm sx sy); try reflexivity.
  now rewrite (Pos.mul_comm mx my), (Z.add_comm ex ey).
Qed.

Lemma vec3_mul_scalar_comm v s : vec3_mul_scalar v s = scalar_mul_vec3 s v.
Proof.
  unfold vec3_mul_scalar, scalar_mul_vec3, Flt.mul.
  now rewrite (SFmul_comm _ _ (vx v)), (SFmul_comm _ _ (vy v)), (SFmul_comm _ _ (vz v)).
Qed.

(** ** Closed forms of the operations *)

Section ClosedForms.
Context {ext : Collaborators}.

Lemma is_press_false a : is_press a = false <-> a <> GLFW_PRESS.
Proof. destruct a; cbn; split; congruence. Qed.

Lemma CreateDisplayWindow_null title w :
  CreateDisplayWindow title None w =
    (None,
     mkWorld (globals w) (this w)
       (trace w ++ [glfwCreateWindow WINDOW_WIDTH WINDOW_HEIGHT title;
                    cout (out_text "Failed to create GLFW window");
                    glfwTerminate])).
Proof.
  unfold CreateDisplayWindow. unfold_m. cbn.
  rewrite <- !app_assoc. reflexivity.
Qed.

Lemma CreateDisplayWindow_some title window w :
  CreateDisplayWindow title (Some window) w =
    (Some window,
     mkWorld (globals w)
       (mkViewManager (m_pShaderManager (this w)) (Some window))
       (trace w ++ [glfwCreateWindow WINDOW_WIDTH WINDOW_HEIGHT title;
                    glfwMakeContextCurrent window;
                    glfwSetCursorPosCallback window cb_Mouse_Position_Callback;
                    glfwSetScrollCallback window cb_Mouse_Scroll_Callback;
                    glEnable GL_BLEND;
                    glBlendFunc GL_SRC_ALPHA GL_ONE_MINUS_SRC_ALPHA])).
Proof.
  unfold CreateDisplayWindow. unfold_m. cbn.
  rewrite <- !app_assoc. reflexivity.
Qed.

Lemma ProcessKeyboardEvents_exec env w :
  let c := g_pCamera (globals w) in
  exec (ProcessKeyboardEvents env) w =
    mkWorld
      (set_g_pCamera
         (set_Position
            (fold_left (displaced_by_key env (keyboard_speed (globals w)) c)
                       movement_keys (Position c)) c)
         (globals w))
      (this w)
      (trace w ++ escape_calls env w).
Proof.
  destruct_world w.
  unfold ProcessKeyboardEvents, escape_calls, keyboard_speed, displaced_by_key,
    displaced, right_axis. unfold_m.
  cbn.
  destruct (is_press (glfwGetKey env GLFW_KEY_W)),
           (is_press (glfwGetKey env GLFW_KEY_S)),
           (is_press (glfwGetKey env GLFW_KEY_A)),
           (is_press (glfwGetKey env GLFW_KEY_D)),
           (is_press (glfwGetKey env GLFW_KEY_Q)),
           (is_press (glfwGetKey env GLFW_KEY_E)),
           (is_press (glfwGetKey env GLFW_KEY_ESCAPE)); cbn;
    rewrite ?vec3_mul_scalar_comm, ?app_nil_r; reflexivity.
Qed.

Lemma ProcessKeyboardEvents_unit env w :
  ProcessKeyboardEvents env w = (tt, exec (ProcessKeyboardEvents env) w).
Proof.
  unfold exec. destruct (ProcessKeyboardEvents env w) as [[] w']. reflexivity.
Qed.

Lemma PrepareSceneView_matrices_eq env w :
  let w2 := after_keyboard env w in
  let cam := g_pCamera (globals w2) in
  let flag := polled_flag env (bOrthographicProjection (globals w)) in
  PrepareSceneView_matrices env w =
    ((Camera_GetViewMatrix cam,
      if flag then orthographic_projection else perspective_projection cam),
     mkWorld (set_bOrthographicProjection flag (globals w2)) (this w2) (trace w2)).
Proof.
  cbv zeta. unfold after_keyboard.
  unfold PrepareSceneView_matrices.
  unfold bind at 1. unfold read at 1.
  unfold bind at 1. unfold write at 1.
  unfold bind at 1. unfold write at 1.
  unfold bind at 1. cbn [globals this trace].
  fold (frame_timing env (globals w)).
  rewrite ProcessKeyboardEvents_unit.
  rewrite ProcessKeyboardEvents_exec.
  destruct_world w. unfold frame_timing, polled_flag. unfold_m. cbn.
  destruct (is_press (glfwGetKey env GLFW_KEY_O)),
           (is_press (glfwGetKey env GLFW_KEY_P)); reflexivity.
Qed.

End ClosedForms.

(** ** The keyboard poller *)

Section Keyboard.
Context {ext : Collaborators}.

Lemma displaced_by_key_skip env speed c p k :
  glfwGetKey env k = GLFW_RELEASE -> displaced_by_key env speed c p k = p.
Proof.
  intros H. unfold displaced_by_key. rewrite H. cbn. now destruct (key_axis k c).
Qed.

Lemma displaced_by_key_press env speed c p k sa :
  key_axis k c = Some sa -> glfwGetKey env k = GLFW_PRESS ->
  displaced_by_key env speed c p k = displaced speed p sa.
Proof. intros Ha Hp. unfold displaced_by_key. now rewrite Ha, Hp. Qed.

Lemma key_axis_movement k c sa : key_axis k c = Some sa -> In k movement_keys.
Proof. destruct k; cbn; intros H; try discriminate; tauto. Qed.

(** C3.  One poll of the keyboard moves the camera position by the camera
    speed [gDeltaTime * 5.0f * gCameraSpeedMultiplier] along [+Front] for W,
    [-Front] for S, [-normalize(cross(Front, Up))] for A,
    [+normalize(cross(Front, Up))] for D, [+Up] for Q and [-Up] for E.  The
    pressed keys act one after the other in poll order; a single pressed key
    gives exactly its displacement, no pressed movement key leaves the position
    as it was, and the axes themselves are never written. *)
Theorem ProcessKeyboardEvents_moves_camera (env : Env) (w : World) :
  let c := g_pCamera (globals w) in
  let speed :=
    Flt.mul (Flt.mul (gDeltaTime (globals w)) lit_5_0f)
            (gCameraSpeedMultiplier (globals w)) in
  let c' := g_pCamera (globals (exec (ProcessKeyboardEvents env) w)) in
  Position c' =
    fold_left (displaced_by_key env speed c) movement_keys (Position c)
  /\ (forall k sa,
        key_axis k c = Some sa ->
        glfwGetKey env k = GLFW_PRESS ->
        (forall k', In k' movement_keys -> k' <> k ->
                    glfwGetKey env k' = GLFW_RELEASE) ->
        Position c' = displaced speed (Position c) sa)
  /\ ((forall k, In k movement_keys -> glfwGetKey env k = GLFW_RELEASE) ->
      Position c' = Position c)
  /\ Front c' = Front c /\ Up c' = Up c /\ Zoom c' = Zoom c.
Proof.
  cbv zeta. rewrite ProcessKeyboardEvents_exec. cbn [globals g_pCamera].
  fold (keyboard_speed (globals w)).
  set (c := g_pCamera (globals w)). set (speed := keyboard_speed (globals w)).
  assert (Hc : g_pCamera (set_g_pCamera
      (set_Position (fold_left (displaced_by_key env speed c) movement_keys
         (Position c)) c) (globals w))
     = set_Position (fold_left (displaced_by_key env speed c) movement_keys
         (Position c)) c) by reflexivity.
  rewrite Hc. cbn [set_Position Position Front Up Zoom].
  repeat split.
  - intros k sa Ha Hp Hothers.
    assert (Hstep : forall k' p, In k' movement_keys ->
              displaced_by_key env speed c p k' =
              if is_press (glfwGetKey env k') then displaced speed p sa else p).
    { intros k' p Hin.
      destruct (glfwGetKey env k') eqn:Hk'.
      - now apply displaced_by_key_skip.
      - assert (k' = k) as ->.
        { destruct (Key_eq_dec k' k) as [|Hne]; [assumption|].
          rewrite (Hothers k' Hin Hne) in Hk'. discriminate. }
        now apply displaced_by_key_press. }
    pose proof (key_axis_movement _ _ _ Ha) as Hin.
    unfold movement_keys in *. cbn [fold_left].
    rewrite !Hstep by (cbn; tauto).
    cbn in Hin.
    destruct Hin as [<-|[<-|[<-|[<-|[<-|[<-|[]]]]]]]; rewrite Hp; cbn [is_press];
      repeat match goal with
      | |- context [glfwGetKey env ?k'] =>
          rewrite (Hothers k') by (cbn; first [tauto | discriminate])
      end; reflexivity.
  - intros Hnone. unfold movement_keys in *. cbn [fold_left].
    rewrite !displaced_by_key_skip by (apply Hnone; cbn; tauto). reflexivity.
Qed.

End Keyboard.

(** ** Window creation, the close request and the shader sink *)

Section Effects.
Context {ext : Collaborators}.

(** C7.  When the windowing library returns a null handle,
    [CreateDisplayWindow] logs the failure, terminates the windowing subsystem
    and returns null; these are its only calls after the creation attempt, and
    neither the members of the object nor the namespace variables change. *)
Theorem CreateDisplayWindow_failure (windowTitle : string) (w : World) :
  let r := CreateDisplayWindow windowTitle None w in
  fst r = None
  /\ trace (snd r) =
       trace w ++ [glfwCreateWindow WINDOW_WIDTH WINDOW_HEIGHT windowTitle;
                   cout (out_text "Failed to create GLFW window");
                   glfwTerminate]
  /\ m_pWindow (this (snd r)) = m_pWindow (this w)
  /\ this (snd r) = this w
  /\ globals (snd r) = globals w.
Proof. cbv zeta. rewrite CreateDisplayWindow_null. cbn. auto. Qed.

Lemma close_writes_app t1 t2 :
  close_writes (t1 ++ t2) = close_writes t1 ++ close_writes t2.
Proof. unfold close_writes. apply flat_map_app. Qed.

Lemma shader_writes_app t1 t2 :
  shader_writes (t1 ++ t2) = shader_writes t1 ++ shader_writes t2.
Proof. unfold shader_writes. apply filter_app. Qed.

Lemma close_writes_escape env w :
  close_writes (escape_calls env w) =
    if is_press (glfwGetKey env GLFW_KEY_ESCAPE)
    then [(m_pWindow (this w), true)] else [].
Proof. unfold escape_calls. now destruct (is_press _). Qed.

Lemma shader_writes_escape env w : shader_writes (escape_calls env w) = [].
Proof. unfold escape_calls. now destruct (is_press _). Qed.

Lemma PrepareSceneView_exec env w :
  let r := PrepareSceneView_matrices env w in
  exec (PrepareSceneView env) w =
    match m_pShaderManager (this w) with
    | None => snd r
    | Some _ =>
        mkWorld (globals (snd r)) (this (snd r))
          (trace (snd r) ++
             [setMat4Value "view" (fst (fst r));
              setMat4Value "projection" (snd (fst r));
              setVec3Value "viewPosition" (Position (g_pCamera (globals (snd r))))])
    end.
Proof.
  cbv zeta. unfold PrepareSceneView, exec at 1, bind at 1.
  rewrite PrepareSceneView_matrices_eq. cbv zeta. cbn [fst snd].
  unfold after_keyboard. rewrite ProcessKeyboardEvents_exec. cbv zeta.
  cbn [globals this trace]. unfold_m. cbn [globals this trace fst snd].
  destruct (m_pShaderManager (this w)); cbn; rewrite <- ?app_assoc; reflexivity.
Qed.

Lemma Mouse_Position_Callback_trace x y w :
  exists xo yo m,
    trace (exec (Mouse_Position_Callback x y) w) =
      trace w ++ [ProcessMouseMovement xo yo;
                  cout (out_text_float "Camera Speed Multiplier: " m)]
    /\ this (exec (Mouse_Position_Callback x y) w) = this w.
Proof.
  destruct w as [[cam lx ly first mult dt lf ortho pm sm] vm tr].
  unfold Mouse_Position_Callback. unfold_m.
  destruct first; cbn; do 3 eexists; rewrite <- ?app_assoc; split; reflexivity.
Qed.

Lemma Mouse_Scroll_Callback_exec x y w :
  let m := clamp_speed
             (Flt.add (scroll_cb_gCameraSpeedMultiplier (globals w))
                      (Flt.mul (double_to_float y) lit_0_1f)) in
  exec (Mouse_Scroll_Callback x y) w =
    mkWorld (set_scroll_cb_gCameraSpeedMultiplier m (globals w)) (this w)
            (trace w ++ [cout (out_text_float "Camera Speed Multiplier: " m)]).
Proof. reflexivity. Qed.

(** C9.  A keyboard poll with Escape pressed makes exactly one call,
    [glfwSetWindowShouldClose(m_pWindow, true)]; with Escape not pressed it
    makes none.  No other entry into the module writes the should-close flag:
    a frame writes it through its keyboard poll only. *)
Theorem escape_requests_window_close (env : Env) (w : World) :
  let w' := exec (ProcessKeyboardEvents env) w in
  (glfwGetKey env GLFW_KEY_ESCAPE = GLFW_PRESS ->
     trace w' = trace w ++ [glfwSetWindowShouldClose (m_pWindow (this w)) true])
  /\ (glfwGetKey env GLFW_KEY_ESCAPE <> GLFW_PRESS -> trace w' = trace w)
  /\ (forall e : Event,
        close_writes (trace (exec (step e) w)) =
          close_writes (trace w) ++
          match e with
          | ev_Frame env' =>
              if is_press (glfwGetKey env' GLFW_KEY_ESCAPE)
              then [(m_pWindow (this w), true)] else []
          | _ => []
          end).
Proof.
  cbv zeta. rewrite ProcessKeyboardEvents_exec. cbn [trace]. unfold escape_calls.
  split; [|split].
  - intros ->. reflexivity.
  - intros H. apply is_press_false in H. rewrite H. apply app_nil_r.
  - intros [title [win|] | x y | x y | env'].
    + unfold step, exec, bind. rewrite CreateDisplayWindow_some.
      unfold ret. cbn [snd trace]. now rewrite close_writes_app.
    + unfold step, exec, bind. rewrite CreateDisplayWindow_null.
      unfold ret. cbn [snd trace]. now rewrite close_writes_app.
    + cbn [step]. destruct (Mouse_Position_Callback_trace x y w)
        as (xo & yo & m & -> & _).
      now rewrite close_writes_app.
    + cbn [step]. rewrite Mouse_Scroll_Callback_exec. cbn [trace].
      now rewrite close_writes_app.
    + cbn [step]. rewrite PrepareSceneView_exec. cbv zeta.
      rewrite PrepareSceneView_matrices_eq. cbv zeta. cbn [fst snd].
      unfold after_keyboard. rewrite ProcessKeyboardEvents_exec. cbv zeta.
      cbn [globals this trace].
      destruct (m_pShaderManager (this w)); cbn [trace];
        rewrite ?close_writes_app, close_writes_escape; cbn [this];
        cbn [close_writes flat_map app]; rewrite ?app_nil_r; reflexivity.
Qed.

(** C10.  With a null shader manager [PrepareSceneView] writes nothing into
    the shader sink, yet it has updated [gLastFrame] and [gDeltaTime] and has
    polled the keyboard; with a shader manager it appends exactly three
    writes, under the keys "view", "projection" and "viewPosition", carrying
    the view matrix, the selected projection and the camera position. *)
Theorem shader_sink_guarded_by_null_test (env : Env) (w : World) :
  let r := PrepareSceneView_matrices env w in
  let w' := exec (PrepareSceneView env) w in
  (m_pShaderManager (this w) = None ->
     shader_writes (trace w') = shader_writes (trace w)
     /\ trace w' = trace w ++ escape_calls env w
     /\ gLastFrame (globals w') = double_to_float (glfwGetTime env)
     /\ gDeltaTime (globals w') =
          Flt.sub (double_to_float (glfwGetTime env)) (gLastFrame (globals w))
     /\ g_pCamera (globals w') = g_pCamera (globals (after_keyboard env w)))
  /\ (forall s, m_pShaderManager (this w) = Some s ->
        trace w' =
          trace (snd r) ++
            [setMat4Value "view" (fst (fst r));
             setMat4Value "projection" (snd (fst r));
             setVec3Value "viewPosition"
               (Position (g_pCamera (globals (snd r))))]
        /\ shader_writes (trace w') =
             shader_writes (trace w) ++
               [setMat4Value "view"
                  (Camera_GetViewMatrix (g_pCamera (globals w')));
                setMat4Value "projection" (snd (fst r));
                setVec3Value "viewPosition" (Position (g_pCamera (globals w')))]).
Proof.
  cbv zeta. rewrite PrepareSceneView_exec. cbv zeta.
  rewrite PrepareSceneView_matrices_eq. cbv zeta. cbn [fst snd].
  unfold after_keyboard. rewrite ProcessKeyboardEvents_exec. cbv zeta.
  cbn [globals this trace].
  split.
  - intros ->. cbn [trace globals].
    rewrite shader_writes_app, shader_writes_escape, app_nil_r.
    repeat split; try reflexivity.
  - intros s ->. cbn [trace globals]. split; [reflexivity|].
    rewrite !shader_writes_app, shader_writes_escape, app_nil_r. reflexivity.
Qed.

End Effects.

(** ** The projection toggle *)

Section Projection.
Context {ext : Collaborators}.

Lemma after_keyboard_Zoom env w :
  Zoom (g_pCamera (globals (after_keyboard env w))) = Zoom (g_pCamera (globals w)).
Proof.
  unfold after_keyboard. rewrite ProcessKeyboardEvents_exec. cbv zeta.
  destruct w as [[cam lx ly first mult dt lf ortho pm sm] vm tr]. reflexivity.
Qed.

Lemma polled_flag_cases env old :
  let O := glfwGetKey env GLFW_KEY_O in
  let P := glfwGetKey env GLFW_KEY_P in
  (P = GLFW_PRESS -> polled_flag env old = false)
  /\ (O = GLFW_PRESS -> P <> GLFW_PRESS -> polled_flag env old = true)
  /\ (O <> GLFW_PRESS -> P <> GLFW_PRESS -> polled_flag env old = old).
Proof.
  unfold polled_flag.
  destruct (glfwGetKey env GLFW_KEY_O), (glfwGetKey env GLFW_KEY_P); cbn;
    repeat split; congruence.
Qed.

(** C5.  Each frame the projection is chosen by the value the flag
    [bOrthographicProjection] has after the polls of that frame: O (without P)
    sets the flag and gives [ortho(-10, 10, -10, 10, 0.1, 100)]; P clears it
    and gives [perspective(radians(Zoom), WINDOW_WIDTH / WINDOW_HEIGHT, 0.1,
    100)]; with neither key pressed the stored flag decides. *)
Theorem projection_selected_by_polled_flag (env : Env) (w : World) :
  let r := PrepareSceneView_matrices env w in
  let projection := snd (fst r) in
  let flag := bOrthographicProjection (globals (snd r)) in
  let zoom := Zoom (g_pCamera (globals w)) in
  let ortho :=
    glm_ortho (SFopp lit_10_0f) lit_10_0f (SFopp lit_10_0f) lit_10_0f
              lit_0_1f lit_100_0f in
  let perspective :=
    glm_perspective (glm_radians zoom)
      (Flt.div (Flt.of_Z WINDOW_WIDTH) (Flt.of_Z WINDOW_HEIGHT))
      lit_0_1f lit_100_0f in
  projection = (if flag then ortho else perspective)
  /\ (glfwGetKey env GLFW_KEY_O = GLFW_PRESS ->
      glfwGetKey env GLFW_KEY_P <> GLFW_PRESS ->
      flag = true /\ projection = ortho)
  /\ (glfwGetKey env GLFW_KEY_P = GLFW_PRESS ->
      flag = false /\ projection = perspective)
  /\ (glfwGetKey env GLFW_KEY_O <> GLFW_PRESS ->
      glfwGetKey env GLFW_KEY_P <> GLFW_PRESS ->
      flag = bOrthographicProjection (globals w)
      /\ projection =
           if bOrthographicProjection (globals w) then ortho else perspective).
Proof.
  cbv zeta. rewrite PrepareSceneView_matrices_eq. cbv zeta. cbn [fst snd globals].
  unfold perspective_projection, orthographic_projection, aspect_ratio.
  rewrite after_keyboard_Zoom.
  destruct (polled_flag_cases env (bOrthographicProjection (globals w)))
    as (HP & HO & Hnone).
  set (g2 := globals (after_keyboard env w)).
  assert (Hflag : forall b, bOrthographicProjection
                              (set_bOrthographicProjection b g2) = b)
    by reflexivity.
  rewrite Hflag.
  repeat split.
  - now apply HO.
  - rewrite HO by assumption. reflexivity.
  - now apply HP.
  - rewrite HP by assumption. reflexivity.
  - now apply Hnone.
  - rewrite Hnone by assumption. reflexivity.
Qed.

(** C6.  With O and P both pressed in one frame the later poll wins: the flag
    ends the frame false and the perspective projection is selected. *)
Theorem both_keys_select_perspective (env : Env) (w : World) :
  glfwGetKey env GLFW_KEY_O = GLFW_PRESS ->
  glfwGetKey env GLFW_KEY_P = GLFW_PRESS ->
  let r := PrepareSceneView_matrices env w in
  bOrthographicProjection (globals (snd r)) = false
  /\ snd (fst r) =
       glm_perspective (glm_radians (Zoom (g_pCamera (globals w))))
         (Flt.div (Flt.of_Z WINDOW_WIDTH) (Flt.of_Z WINDOW_HEIGHT))
         lit_0_1f lit_100_0f
  /\ bOrthographicProjection (globals (exec (PrepareSceneView env) w)) = false.
Proof.
  intros HO HP. cbv zeta. rewrite PrepareSceneView_exec. cbv zeta.
  rewrite PrepareSceneView_matrices_eq. cbv zeta. cbn [fst snd globals].
  unfold perspective_projection, aspect_ratio. rewrite after_keyboard_Zoom.
  unfold polled_flag. rewrite HP. cbn [is_press].
  repeat split. now destruct (m_pShaderManager (this w)).
Qed.

End Projection.

(** ** The namespace-level speed multiplier *)

Section Multiplier.
Context {ext : Collaborators}.

Lemma step_keeps_namespace_multiplier e w :
  gCameraSpeedMultiplier (globals (exec (step e) w)) =
  gCameraSpeedMultiplier (globals w).
Proof.
  destruct e as [title [win|] | x y | x y | env]; cbn [step].
  - unfold exec, bind. now rewrite CreateDisplayWindow_some.
  - unfold exec, bind. now rewrite CreateDisplayWindow_null.
  - destruct w as [[cam lx ly first mult dt lf ortho pm sm] vm tr].
    unfold Mouse_Position_Callback. unfold_m. now destruct first.
  - now rewrite Mouse_Scroll_Callback_exec.
  - rewrite PrepareSceneView_exec. cbv zeta.
    rewrite PrepareSceneView_matrices_eq. cbv zeta. cbn [fst snd].
    unfold after_keyboard. rewrite ProcessKeyboardEvents_exec. cbv zeta.
    now destruct (m_pShaderManager (this w)).
Qed.

Lemma run_keeps_namespace_multiplier evs w :
  gCameraSpeedMultiplier (globals (run evs w)) =
  gCameraSpeedMultiplier (globals w).
Proof.
  revert w. induction evs as [|e evs IH]; intros w; cbn [run].
  - reflexivity.
  - now rewrite IH, step_keeps_namespace_multiplier.
Qed.

(** C2.  No entry into the module writes the namespace-level
    [gCameraSpeedMultiplier]: both callbacks update their own function-local
    static.  After any sequence of events from construction the variable
    still has its initial value [1.0f], and this is the multiplier in the
    camera-speed formula of the keyboard poll. *)
Theorem namespace_multiplier_stays_one
    (pShaderManager : option ShaderManager) (evs : list Event) :
  let w := run evs (ViewManager_ctor pShaderManager) in
  (forall e w0,
     gCameraSpeedMultiplier (globals (exec (step e) w0)) =
     gCameraSpeedMultiplier (globals w0))
  /\ gCameraSpeedMultiplier (globals w) = lit_1_0f
  /\ keyboard_speed (globals w) =
       Flt.mul (Flt.mul (gDeltaTime (globals w)) lit_5_0f) lit_1_0f.
Proof.
  cbv zeta. split; [|split].
  - intros e w0. apply step_keeps_namespace_multiplier.
  - now rewrite run_keeps_namespace_multiplier.
  - unfold keyboard_speed. now rewrite run_keeps_namespace_multiplier.
Qed.

End Multiplier.

(** ** Comparison and the clamp *)

Lemma SFcompare_antisym x y c :
  SFcompare x y = Some c -> SFcompare y x = Some (CompOpp c).
Proof.
  destruct x as [sx|sx| |sx mx ex], y as [sy|sy| |sy my ey]; cbn;
    try discriminate; intros [= <-];
    try (destruct sx; reflexivity); try (destruct sy; reflexivity);
    try (destruct sx, sy; reflexivity).
  destruct sx, sy; cbn; try reflexivity;
    rewrite (Z.compare_antisym ex ey);
    destruct (ex ?= ey); cbn; try reflexivity;
    now rewrite (Pos.compare_cont_antisym mx my Eq).
Qed.

Lemma SFcompare_not_nan x y :
  is_nan x = false -> is_nan y = false -> exists c, SFcompare x y = Some c.
Proof.
  destruct x as [sx|sx| |sx mx ex], y as [sy|sy| |sy my ey]; cbn;
    try discriminate; intros _ _; eexists; reflexivity.
Qed.

Lemma in_speed_range_finite m : in_speed_range m -> is_finite m = true.
Proof.
  intros [Hlo Hhi]. destruct m as [s|[|]| |s mm e]; try reflexivity;
    cbn in Hlo, Hhi; discriminate.
Qed.

Lemma clamp_speed_in_range v : is_nan v = false -> in_speed_range (clamp_speed v).
Proof.
  intros Hv. unfold clamp_speed, in_speed_range, Flt.ltb, Flt.leb, SFltb.
  destruct (SFcompare_not_nan v lit_0_1f Hv eq_refl) as [c Hc].
  rewrite Hc. pose proof (SFcompare_antisym _ _ _ Hc) as Hc'.
  destruct c.
  - destruct (SFcompare_not_nan lit_10_0f v eq_refl Hv) as [d Hd].
    rewrite Hd. pose proof (SFcompare_antisym _ _ _ Hd) as Hd'.
    unfold SFleb. destruct d; rewrite ?Hc', ?Hd'; cbn; auto.
  - cbn. auto.
  - destruct (SFcompare_not_nan lit_10_0f v eq_refl Hv) as [d Hd].
    rewrite Hd. pose proof (SFcompare_antisym _ _ _ Hd) as Hd'.
    unfold SFleb. destruct d; rewrite ?Hc', ?Hd'; cbn; auto.
Qed.

(** A NaN passes both tests of the clamp. *)
Lemma clamp_speed_nan : clamp_speed S754_nan = S754_nan.
Proof. reflexivity. Qed.

(** ** Operations that cannot produce a NaN *)

Lemma round_to_not_nan prec emax x :
  is_nan x = false -> is_nan (round_to prec emax x) = false.
Proof.
  destruct x as [s|s| |s m e]; cbn; try congruence. intros _.
  pose proof (binary_round_shape prec emax s m e) as H.
  now destruct (binary_round prec emax s m e).
Qed.

Lemma SFmul_finite_not_nan prec emax x s m e :
  is_nan x = false -> is_nan (SFmul prec emax x (S754_finite s m e)) = false.
Proof.
  destruct x as [sx|sx| |sx mx ex]; cbn; try congruence. intros _.
  pose proof (binary_round_aux_shape prec emax (xorb sx s)
                (Zpos (mx * m)) (ex + e) loc_Exact ltac:(lia)) as H.
  now destruct (binary_round_aux _ _ _ _ _ _).
Qed.

Lemma SFadd_finite_not_nan prec emax x y :
  is_finite x = true -> is_nan y = false -> is_nan (SFadd prec emax x y) = false.
Proof.
  destruct x as [sx|sx| |sx mx ex], y as [sy|sy| |sy my ey]; cbn;
    try congruence; intros _ _.
  - now destruct sx, sy.
  - match goal with |- is_nan ?t = false => destruct t eqn:E end;
      try reflexivity.
    now apply binary_normalize_not_nan in E.
Qed.

(** ** The scroll handler *)

Section Scroll.
Context {ext : Collaborators}.

Lemma scroll_step_eq x y w :
  scroll_cb_gCameraSpeedMultiplier (globals (exec (Mouse_Scroll_Callback x y) w)) =
  clamp_speed
    (Flt.add (scroll_cb_gCameraSpeedMultiplier (globals w))
             (Flt.mul (double_to_float y) lit_0_1f)).
Proof. reflexivity. Qed.



End Scroll.

(** ** Ordered numbers and their difference *)

Section Ordered.
Variables prec emax : Z.
Hypothesis prec_pos : 0 < prec.

Lemma bounded_canonical m e :
  bounded prec emax m e = true ->
  fexp prec emax (Zpos (digits2_pos m) + e) = e.
Proof.
  unfold bounded, canonical_mantissa. intros H.
  apply andb_prop in H. destruct H as [H _]. now apply Z.eqb_eq.
Qed.

Lemma bounded_ge_emin m e :
  bounded prec emax m e = true -> emin prec emax <= e.
Proof.
  intros H. rewrite <- (bounded_canonical m e H). apply fexp_ge_emin.
Qed.

(** On canonical positive numbers the comparison orders the values. *)
Lemma SFleb_value B m1 e1 m2 e2 :
  bounded prec emax m1 e1 = true -> bounded prec emax m2 e2 = true ->
  B <= e1 -> B <= e2 ->
  SFleb (S754_finite false m1 e1) (S754_finite false m2 e2) = true ->
  Zpos m1 * 2 ^ (e1 - B) <= Zpos m2 * 2 ^ (e2 - B).
Proof.
  intros Hb1 Hb2 HB1 HB2. unfold SFleb. cbn [SFcompare].
  destruct (Z.compare_spec e1 e2) as [He|He|He]; try discriminate.
  - subst e2. intros H.
    assert (Hm : (m1 <= m2)%positive).
    { unfold Pos.le. fold (Pos.compare m1 m2) in H.
      destruct (m1 ?= m2)%positive; congruence. }
    assert (0 < 2 ^ (e1 - B)) by (apply Z.pow_pos_nonneg; lia).
    nia.
  - intros _.
    pose proof (bounded_canonical _ _ Hb1) as Hc1.
    pose proof (bounded_canonical _ _ Hb2) as Hc2.
    set (d1 := Zpos (digits2_pos m1)) in *.
    set (d2 := Zpos (digits2_pos m2)) in *.
    assert (Hmag : d1 + e1 < d2 + e2).
    { destruct (Z_lt_le_dec (d1 + e1) (d2 + e2)) as [|Hge]; [assumption|].
      pose proof (fexp_mono prec emax _ _ Hge). lia. }
    pose proof (digits2_pos_bounds m1) as [_ Hhi]. fold d1 in Hhi.
    pose proof (digits2_pos_bounds m2) as [Hlo _]. fold d2 in Hlo.
    assert (Hp1 : 0 < 2 ^ (e1 - B)) by (apply Z.pow_pos_nonneg; lia).
    assert (Hp2 : 0 < 2 ^ (e2 - B)) by (apply Z.pow_pos_nonneg; lia).
    assert (Hd1 : 0 < d1) by (unfold d1; lia).
    assert (Hd2 : 0 < d2) by (unfold d2; lia).
    assert (H1 : Zpos m1 * 2 ^ (e1 - B) < 2 ^ (d1 + e1 - B)).
    { replace (d1 + e1 - B) with (d1 + (e1 - B)) by lia.
      rewrite Z.pow_add_r by lia. nia. }
    assert (H2 : 2 ^ (d2 - 1 + (e2 - B)) <= Zpos m2 * 2 ^ (e2 - B)).
    { rewrite Z.pow_add_r by lia. nia. }
    assert (2 ^ (d1 + e1 - B) <= 2 ^ (d2 - 1 + (e2 - B)))
      by (apply Z.pow_le_mono_r; lia).
    lia.
Qed.

(** The difference of two positive numbers in value order is not negative. *)
Lemma SFsub_ordered B m1 e1 m2 e2 :
  B <= e1 -> B <= e2 ->
  Zpos m1 * 2 ^ (e1 - B) <= Zpos m2 * 2 ^ (e2 - B) ->
  same_sign_not_nan false
    (SFsub prec emax (S754_finite false m2 e2) (S754_finite false m1 e1)).
Proof.
  intros HB1 HB2 Hle. cbn [SFsub cond_Zopp].
  apply binary_normalize_shape.
  destruct (shl_align_spec m2 e2 (Z.min e2 e1)) as [_ H2].
  destruct (shl_align_spec m1 e1 (Z.min e2 e1)) as [_ H1].
  rewrite H1, H2.
  replace (Z.min e2 (Z.min e2 e1)) with (Z.min e2 e1) by lia.
  replace (Z.min e1 (Z.min e2 e1)) with (Z.min e2 e1) by lia.
  set (ez := Z.min e2 e1).
  assert (Hz : 0 < 2 ^ (ez - B)) by (apply Z.pow_pos_nonneg; lia).
  assert (E1 : Zpos m1 * 2 ^ (e1 - B) = Zpos m1 * 2 ^ (e1 - ez) * 2 ^ (ez - B)).
  { rewrite <- Z.mul_assoc, <- Z.pow_add_r by lia. f_equal. f_equal. lia. }
  assert (E2 : Zpos m2 * 2 ^ (e2 - B) = Zpos m2 * 2 ^ (e2 - ez) * 2 ^ (ez - B)).
  { rewrite <- Z.mul_assoc, <- Z.pow_add_r by lia. f_equal. f_equal. lia. }
  rewrite E1, E2 in Hle. nia.
Qed.

End Ordered.

Lemma SFleb_zero_same_sign r :
  same_sign_not_nan false r -> SFleb (S754_zero false) r = true.
Proof. destruct r as [s|s| |s m e]; cbn; try tauto; now intros ->. Qed.

(** ** Frame timing *)

Lemma nonneg_finite_cases (t : double) :
  is_finite t = true -> Dbl.leb (S754_zero false) t = true ->
  (exists s, t = S754_zero s) \/ (exists m e, t = S754_finite false m e).
Proof.
  destruct t as [s|s| |s m e]; cbn; try discriminate; intros _ H.
  - left. now exists s.
  - right. destruct s; [discriminate|]. now exists m, e.
Qed.

Lemma Dbl_leb_nonneg_trans (a b : double) :
  is_finite a = true -> is_finite b = true ->
  Dbl.leb (S754_zero false) a = true -> Dbl.leb a b = true ->
  Dbl.leb (S754_zero false) b = true.
Proof.
  intros Ha Hb H0 Hab.
  destruct (nonneg_finite_cases a Ha H0) as [[s ->]|(m & e & ->)];
    destruct b as [sb|sb| |sb mb eb]; cbn in *; try discriminate;
    try reflexivity; now destruct sb.
Qed.

Lemma double_to_float_finite s m e :
  double_to_float (S754_finite s m e) = binary_round Flt.prec Flt.emax s m e.
Proof. reflexivity. Qed.

Lemma double_to_float_zero s : double_to_float (S754_zero s) = S754_zero s.
Proof. reflexivity. Qed.

(** Two successive readings of a clock that does not run backwards give a
    difference that is not negative. *)
Lemma frame_delta_nonneg (t1 t2 : double) :
  Dbl.valid t1 = true -> Dbl.valid t2 = true ->
  is_finite t1 = true -> is_finite t2 = true ->
  is_finite (double_to_float t1) = true ->
  is_finite (double_to_float t2) = true ->
  Dbl.leb (S754_zero false) t1 = true -> Dbl.leb t1 t2 = true ->
  Flt.leb lit_0_0f (Flt.sub (double_to_float t2) (double_to_float t1)) = true.
Proof.
  intros Hv1 Hv2 Hf1 Hf2 Hc1 Hc2 H01 H12.
  pose proof (Dbl_leb_nonneg_trans t1 t2 Hf1 Hf2 H01 H12) as H02.
  assert (Hprec : 0 < Flt.prec) by (unfold Flt.prec; lia).
  assert (Hemax : Flt.prec < Flt.emax) by (unfold Flt.prec, Flt.emax; lia).
  destruct (nonneg_finite_cases t1 Hf1 H01) as [[s1 ->]|(m1 & e1 & ->)];
    destruct (nonneg_finite_cases t2 Hf2 H02) as [[s2 ->]|(m2 & e2 & ->)].
  - rewrite !double_to_float_zero. now destruct s1, s2.
  - rewrite double_to_float_zero, double_to_float_finite in *.
    pose proof (binary_round_shape Flt.prec Flt.emax false m2 e2) as Hs.
    destruct (binary_round Flt.prec Flt.emax false m2 e2) as [s|s| |s m e];
      cbn in Hs, Hc2; try discriminate; subst s; now destruct s1.
  - cbn in H12. discriminate.
  - rewrite !double_to_float_finite in *.
    set (B := emin Dbl.prec Dbl.emax).
    assert (HB : B <= emin Flt.prec Flt.emax) by (vm_compute; discriminate).
    assert (HB1 : B <= e1) by (apply (bounded_ge_emin _ _ m1); exact Hv1).
    assert (HB2 : B <= e2) by (apply (bounded_ge_emin _ _ m2); exact Hv2).
    pose proof (SFleb_value Dbl.prec Dbl.emax B m1 e1 m2 e2 Hv1 Hv2 HB1 HB2 H12)
      as HX.
    assert (HX1 : 0 < Zpos m1 * 2 ^ (e1 - B)).
    { assert (0 < 2 ^ (e1 - B)) by (apply Z.pow_pos_nonneg; lia). lia. }
    pose proof (round_value_mono Flt.prec Flt.emax Hprec B _ _ HB HX1 HX) as HY.
    cbv zeta in HY.
    pose proof (binary_round_value Flt.prec Flt.emax Hprec Hemax B false m1 e1 HB1 HB)
      as Hr1.
    pose proof (binary_round_value Flt.prec Flt.emax Hprec Hemax B false m2 e2 HB2 HB)
      as Hr2.
    unfold rounds_to in Hr1, Hr2.
    destruct (binary_round Flt.prec Flt.emax false m1 e1) as [s1|s1| |s1 q1 f1];
      cbn in Hc1; try discriminate;
      destruct (binary_round Flt.prec Flt.emax false m2 e2) as [s2|s2| |s2 q2 f2];
      cbn in Hc2; try discriminate.
    + destruct Hr1 as [-> _], Hr2 as [-> _]. reflexivity.
    + destruct Hr1 as [-> _], Hr2 as [-> _]. reflexivity.
    + exfalso. destruct Hr1 as (_ & Hf & Hval), Hr2 as [_ Hz].
      rewrite Hz, <- Hval in HY.
      assert (0 < 2 ^ (f1 - B)) by (apply Z.pow_pos_nonneg; lia). lia.
    + destruct Hr1 as (-> & Hb1 & Hval1), Hr2 as (-> & Hb2 & Hval2).
      rewrite <- Hval1, <- Hval2 in HY.
      apply SFleb_zero_same_sign.
      now apply (SFsub_ordered Flt.prec Flt.emax B).
Qed.

(** Readings up to the largest single-precision number do not overflow. *)
Lemma clock_reading_below_FLT_MAX (t : double) :
  Dbl.valid t = true -> is_finite t = true ->
  Dbl.leb (S754_zero false) t = true -> Dbl.leb t dbl_FLT_MAX = true ->
  clock_reading t = true.
Proof.
  intros Hv Hf H0 Hmax. unfold clock_reading. rewrite Hv, Hf. cbn [andb].
  assert (Hprec : 0 < Flt.prec) by (unfold Flt.prec; lia).
  assert (Hemax : Flt.prec < Flt.emax) by (unfold Flt.prec, Flt.emax; lia).
  destruct (nonneg_finite_cases t Hf H0) as [[s ->]|(m & e & ->)];
    [reflexivity|].
  rewrite double_to_float_finite.
  set (B := emin Dbl.prec Dbl.emax).
  assert (HB : B <= emin Flt.prec Flt.emax) by (vm_compute; discriminate).
  assert (HBe : B <= e) by (apply (bounded_ge_emin _ _ m); exact Hv).
  assert (HBm : B <= 75) by (vm_compute; discriminate).
  assert (Hvm : bounded Dbl.prec Dbl.emax 9007198717870080 75 = true)
    by reflexivity.
  pose proof (SFleb_value Dbl.prec Dbl.emax B m e _ _ Hv Hvm HBe HBm Hmax) as HX.
  assert (HX1 : 0 < Zpos m * 2 ^ (e - B)).
  { assert (0 < 2 ^ (e - B)) by (apply Z.pow_pos_nonneg; lia). lia. }
  pose proof (round_value_mono Flt.prec Flt.emax Hprec B _ _ HB HX1 HX) as HY.
  cbv zeta in HY.
  pose proof (binary_round_value Flt.prec Flt.emax Hprec Hemax B false m e HBe HB)
    as Hr.
  pose proof (binary_round_value Flt.prec Flt.emax Hprec Hemax B false
                9007198717870080 75 HBm HB) as Hrm.
  assert (Hcm : binary_round Flt.prec Flt.emax false 9007198717870080 75 =
                S754_finite false 16777215 104) by reflexivity.
  rewrite Hcm in Hrm. unfold rounds_to in Hr, Hrm.
  destruct Hrm as (_ & _ & Hvalm). rewrite <- Hvalm in HY.
  destruct (binary_round Flt.prec Flt.emax false m e) as [s|s| |s q f];
    try reflexivity; [|contradiction].
  exfalso. destruct Hr as [_ Hinf].
  assert (Hlt : 16777215 * 2 ^ (104 - B) < 2 ^ (Flt.emax - B)).
  { replace (Flt.emax - B) with (24 + (104 - B)) by (unfold Flt.emax; lia).
    rewrite Z.pow_add_r by lia.
    assert (0 < 2 ^ (104 - B)) by (apply Z.pow_pos_nonneg; lia).
    change (2 ^ 24) with 16777216. lia. }
  lia.
Qed.

Section FrameTiming.
Context {ext : Collaborators}.

Lemma PrepareSceneView_timing env w :
  gDeltaTime (globals (exec (PrepareSceneView env) w)) =
    Flt.sub (double_to_float (glfwGetTime env)) (gLastFrame (globals w))
  /\ gLastFrame (globals (exec (PrepareSceneView env) w)) =
       double_to_float (glfwGetTime env).
Proof.
  rewrite PrepareSceneView_exec. cbv zeta.
  rewrite PrepareSceneView_matrices_eq. cbv zeta. cbn [fst snd].
  unfold after_keyboard. rewrite ProcessKeyboardEvents_exec. cbv zeta.
  now destruct (m_pShaderManager (this w)).
Qed.

Lemma step_keeps_timing e w :
  (forall env, e <> ev_Frame env) ->
  gDeltaTime (globals (exec (step e) w)) = gDeltaTime (globals w)
  /\ gLastFrame (globals (exec (step e) w)) = gLastFrame (globals w).
Proof.
  intros Hne.
  destruct e as [title [win|] | x y | x y | env]; cbn [step].
  - unfold exec, bind. now rewrite CreateDisplayWindow_some.
  - unfold exec, bind. now rewrite CreateDisplayWindow_null.
  - destruct w as [[cam lx ly first mult dt lf ortho pm sm] vm tr].
    unfold Mouse_Position_Callback. unfold_m. now destruct first.
  - now rewrite Mouse_Scroll_Callback_exec.
  - now destruct (Hne env).
Qed.

Lemma run_delta_nonneg evs : forall last w,
  Dbl.valid last = true -> is_finite last = true ->
  is_finite (double_to_float last) = true ->
  Dbl.leb (S754_zero false) last = true ->
  gLastFrame (globals w) = double_to_float last ->
  Flt.leb lit_0_0f (gDeltaTime (globals w)) = true ->
  clock_monotone last evs = true ->
  Flt.leb lit_0_0f (gDeltaTime (globals (run evs w))) = true.
Proof.
  induction evs as [|e evs IH]; intros last w Hv Hf Hc H0 Hlast Hdt Hclk;
    cbn [run].
  - exact Hdt.
  - destruct e as [title created | x y | x y | env].
    + destruct (step_keeps_timing (ev_CreateDisplayWindow title created) w
                  ltac:(discriminate)) as [E1 E2].
      apply (IH last); auto; congruence.
    + destruct (step_keeps_timing (ev_CursorPos x y) w ltac:(discriminate))
        as [E1 E2].
      apply (IH last); auto; congruence.
    + destruct (step_keeps_timing (ev_Scroll x y) w ltac:(discriminate))
        as [E1 E2].
      apply (IH last); auto; congruence.
    + cbn [clock_monotone] in Hclk.
      apply andb_prop in Hclk. destruct Hclk as [Hclk Hrest].
      apply andb_prop in Hclk. destruct Hclk as [Hread Hle].
      unfold clock_reading in Hread.
      apply andb_prop in Hread. destruct Hread as [Hread Hct].
      apply andb_prop in Hread. destruct Hread as [Hvt Hft].
      destruct (PrepareSceneView_timing env w) as [E1 E2].
      apply (IH (glfwGetTime env)); auto.
      * now apply (Dbl_leb_nonneg_trans last).
      * cbn [step]. rewrite E1, Hlast. now apply frame_delta_nonneg.
Qed.

(** C8.  Every frame sets the delta time to the current clock reading minus
    the stored last-frame reading, both in single precision.  When the clock
    never runs backwards and starts at or above [0], the initial last-frame
    value, the delta time is not negative after any sequence of frames and
    other events.  A clock reading is a finite number of seconds that single
    precision holds without overflow; every reading from [0] up to the largest
    single-precision number, about 3.4e38 seconds, is one. *)
Theorem delta_time_nonnegative
    (pShaderManager : option ShaderManager) (evs : list Event) :
  clock_monotone (S754_zero false) evs = true ->
  Flt.leb lit_0_0f
    (gDeltaTime (globals (run evs (ViewManager_ctor pShaderManager)))) = true
  /\ (forall env w,
        gDeltaTime (globals (exec (PrepareSceneView env) w)) =
        Flt.sub (double_to_float (glfwGetTime env)) (gLastFrame (globals w)))
  /\ (forall t : double,
        Dbl.valid t = true -> is_finite t = true ->
        Dbl.leb (S754_zero false) t = true ->
        Dbl.leb t dbl_FLT_MAX = true ->
        clock_reading t = true).
Proof.
  intros Hclk. split; [|split].
  - now apply (run_delta_nonneg evs (S754_zero false)).
  - intros. apply PrepareSceneView_timing.
  - apply clock_reading_below_FLT_MAX.
Qed.

End FrameTiming.

(** ** The first cursor event *)

Lemma SFsub_diag prec emax x :
  is_finite x = true -> SFsub prec emax x x = S754_zero false.
Proof.
  destruct x as [s|s| |s m e]; cbn [is_finite]; try discriminate; intros _.
  - now destruct s.
  - cbn [SFsub]. now rewrite Z.sub_diag.
Qed.

Lemma first_offset_x (x : double) :
  single_representable x ->
  Flt.mul (double_to_float (Dbl.sub x (float_to_double (double_to_float x))))
          lit_2_5f = S754_zero false.
Proof.
  intros [Hfin Hrep]. rewrite Hrep. unfold Dbl.sub.
  now rewrite SFsub_diag.
Qed.

Lemma first_offset_y (y : double) :
  single_representable y ->
  Flt.mul (double_to_float (Dbl.sub (float_to_double (double_to_float y)) y))
          lit_2_5f = S754_zero false.
Proof.
  intros [Hfin Hrep]. rewrite Hrep. unfold Dbl.sub.
  now rewrite SFsub_diag.
Qed.

Section FirstMouse.
Context {ext : Collaborators}.

Lemma forwarded_offsets_app t1 t2 :
  forwarded_offsets (t1 ++ t2) = forwarded_offsets t1 ++ forwarded_offsets t2.
Proof. unfold forwarded_offsets. apply flat_map_app. Qed.

Lemma Mouse_Position_Callback_first x y w :
  gFirstMouse (globals w) = true ->
  let xOffset :=
    Flt.mul (double_to_float (Dbl.sub x (float_to_double (double_to_float x))))
            lit_2_5f in
  let yOffset :=
    Flt.mul (double_to_float (Dbl.sub (float_to_double (double_to_float y)) y))
            lit_2_5f in
  let w' := exec (Mouse_Position_Callback x y) w in
  forwarded_offsets (trace w') =
    forwarded_offsets (trace w) ++ [(xOffset, yOffset)]
  /\ g_pCamera (globals w') =
       Camera_ProcessMouseMovement xOffset yOffset (g_pCamera (globals w))
  /\ gLastX (globals w') = double_to_float x
  /\ gLastY (globals w') = double_to_float y
  /\ gFirstMouse (globals w') = false.
Proof.
  destruct w as [[cam lx ly first mult dt lf ortho pm sm] vm tr].
  cbn [globals gFirstMouse]. intros ->. cbv zeta.
  unfold Mouse_Position_Callback. unfold_m.
  cbn [globals this trace fst snd gLastX gLastY gFirstMouse g_pCamera
       set_gLastX set_gLastY set_gFirstMouse set_g_pCamera
       set_position_cb_gCameraSpeedMultiplier position_cb_gCameraSpeedMultiplier].
  rewrite !forwarded_offsets_app. cbn [forwarded_offsets flat_map app].
  rewrite app_nil_r. repeat split.
Qed.

(** C4, as the code has it.  On the first cursor event, when both coordinates
    are finite and exactly representable in single precision, the last-known
    position is seeded before the offset is computed and the yaw and pitch
    deltas handed to the camera are both exactly [+0]. *)
Theorem first_mouse_event_zero_offset (x y : double) (w : World) :
  gFirstMouse (globals w) = true ->
  single_representable x ->
  single_representable y ->
  let w' := exec (Mouse_Position_Callback x y) w in
  forwarded_offsets (trace w') =
    forwarded_offsets (trace w) ++ [(S754_zero false, S754_zero false)]
  /\ g_pCamera (globals w') =
       Camera_ProcessMouseMovement (S754_zero false) (S754_zero false)
         (g_pCamera (globals w))
  /\ gLastX (globals w') = double_to_float x
  /\ gLastY (globals w') = double_to_float y
  /\ gFirstMouse (globals w') = false.
Proof.
  intros Hfirst Hx Hy.
  pose proof (Mouse_Position_Callback_first x y w Hfirst) as H. cbv zeta in H.
  rewrite (first_offset_x x Hx), (first_offset_y y Hy) in H. exact H.
Qed.

End FirstMouse.

(** * The model on concrete inputs *)

(** ** The arithmetic *)

Example lit_0_1f_is_a_tenth :
  Flt.div (Flt.of_Z 1) (Flt.of_Z 10) = lit_0_1f.
Proof. reflexivity. Qed.

Example literals_are_the_nearest_floats :
  lit_0_5f = Flt.div (Flt.of_Z 1) (Flt.of_Z 2)
  /\ lit_1_0f = Flt.of_Z 1
  /\ lit_2_0f = Flt.of_Z 2
  /\ lit_2_5f = Flt.div (Flt.of_Z 5) (Flt.of_Z 2)
  /\ lit_5_0f = Flt.of_Z 5
  /\ lit_10_0f = Flt.of_Z 10
  /\ lit_12_0f = Flt.of_Z 12
  /\ lit_100_0f = Flt.of_Z 100
  /\ dbl_FLT_MAX = S754_finite false 9007198717870080 75.
Proof. repeat split. Qed.

Example aspect_ratio_value :
  aspect_ratio = S754_finite false 10485760 (-23).
Proof. reflexivity. Qed.

Example narrowing_rounds :
  double_to_float dbl_400_1 = S754_finite false 13110477 (-15)
  /\ float_to_double (double_to_float dbl_400_1) <> dbl_400_1
  /\ float_to_double (double_to_float (Dbl.of_Z 400)) = Dbl.of_Z 400.
Proof. repeat split. discriminate. Qed.

Example constructor_globals :
  let g := globals (ViewManager_ctor None) in
  gLastX g = S754_finite false 16384000 (-15)
  /\ gLastY g = S754_finite false 13107200 (-15)
  /\ Zoom (g_pCamera g) = S754_finite false 10485760 (-17)
  /\ gFirstMouse g = true.
Proof. repeat split. Qed.

(** A NaN scroll delta is the one input that takes the multiplier out of the
    interval, and it stays out. *)
Example scroll_nan_delta :
  let w := run [ev_Scroll lit_0_0f S754_nan; ev_Scroll lit_0_0f (Dbl.of_Z 1)]
               (ViewManager_ctor None) in
  scroll_cb_gCameraSpeedMultiplier (globals w) = S754_nan.
Proof. reflexivity. Qed.

(** The handlers move their own statics; the namespace variable stays. *)
Example statics_shadow_the_namespace_variable :
  let w := run [ev_Scroll lit_0_0f (Dbl.of_Z 3);
                ev_CursorPos (Dbl.of_Z 400) (Dbl.of_Z 300);
                ev_CursorPos (Dbl.of_Z 400) (Dbl.of_Z 290)]
               (ViewManager_ctor None) in
  scroll_cb_gCameraSpeedMultiplier (globals w)
    = S754_finite false 10905190 (-23)
  /\ position_cb_gCameraSpeedMultiplier (globals w)
    = S754_finite false 14680064 (-22)
  /\ gCameraSpeedMultiplier (globals w) = lit_1_0f.
Proof. vm_compute. repeat split. Qed.

(** ** The theorems at concrete inputs *)


Lemma ProcessKeyboardEvents_moves_camera_witness :
  let env := mkEnv (only_key GLFW_KEY_W) dbl_0_75 in
  let w := run [ev_Frame (mkEnv no_keys dbl_0_5)] (ViewManager_ctor None) in
  let c := g_pCamera (globals w) in
  key_axis GLFW_KEY_W c = Some (true, Front c)
  /\ glfwGetKey env GLFW_KEY_W = GLFW_PRESS
  /\ (forall k', In k' movement_keys -> k' <> GLFW_KEY_W ->
                 glfwGetKey env k' = GLFW_RELEASE)
  /\ Position (g_pCamera (globals (exec (ProcessKeyboardEvents env) w))) =
       displaced (keyboard_speed (globals w)) (Position c) (true, Front c).
Proof.
  cbv zeta.
  set (env := mkEnv (only_key GLFW_KEY_W) dbl_0_75).
  set (w := run [ev_Frame (mkEnv no_keys dbl_0_5)] (ViewManager_ctor None)).
  assert (Ha : key_axis GLFW_KEY_W (g_pCamera (globals w)) =
               Some (true, Front (g_pCamera (globals w)))) by reflexivity.
  assert (Hp : glfwGetKey env GLFW_KEY_W = GLFW_PRESS) by reflexivity.
  assert (Ho : forall k', In k' movement_keys -> k' <> GLFW_KEY_W ->
                          glfwGetKey env k' = GLFW_RELEASE).
  { intros k' _ Hne. destruct k'; try reflexivity. now destruct Hne. }
  split; [exact Ha|]. split; [exact Hp|]. split; [exact Ho|].
  exact (proj1 (proj2 (ProcessKeyboardEvents_moves_camera env w))
           GLFW_KEY_W _ Ha Hp Ho).
Defined.

Lemma first_mouse_event_zero_offset_witness :
  let w := ViewManager_ctor None in
  let x := Dbl.of_Z 400 in
  let y := Dbl.of_Z 300 in
  gFirstMouse (globals w) = true
  /\ single_representable x
  /\ single_representable y
  /\ forwarded_offsets (trace (exec (Mouse_Position_Callback x y) w)) =
       [(S754_zero false, S754_zero false)].
Proof.
  cbv zeta.
  assert (H1 : gFirstMouse (globals (ViewManager_ctor None)) = true)
    by reflexivity.
  assert (Hx : single_representable (Dbl.of_Z 400)) by (split; reflexivity).
  assert (Hy : single_representable (Dbl.of_Z 300)) by (split; reflexivity).
  split; [exact H1|]. split; [exact Hx|]. split; [exact Hy|].
  exact (proj1 (first_mouse_event_zero_offset _ _ _ H1 Hx Hy)).
Defined.

(** C4 as stated fails: a cursor position that single precision cannot hold
    gives offsets that are not zero on the very first event. *)
Lemma first_mouse_event_nonzero_offset :
  let w := ViewManager_ctor None in
  gFirstMouse (globals w) = true
  /\ is_finite dbl_400_1 = true /\ Dbl.valid dbl_400_1 = true
  /\ is_finite dbl_300_3 = true /\ Dbl.valid dbl_300_3 = true
  /\ forwarded_offsets
       (trace (exec (Mouse_Position_Callback dbl_400_1 dbl_300_3) w)) =
     [(S754_finite true 8388608 (-39), S754_finite true 8388608 (-38))].
Proof. vm_compute. repeat split. Qed.

Lemma projection_selected_by_polled_flag_witness :
  let env := mkEnv (only_key GLFW_KEY_O) dbl_0_5 in
  let w := ViewManager_ctor None in
  let r := PrepareSceneView_matrices env w in
  glfwGetKey env GLFW_KEY_O = GLFW_PRESS
  /\ glfwGetKey env GLFW_KEY_P <> GLFW_PRESS
  /\ bOrthographicProjection (globals (snd r)) = true
  /\ snd (fst r) =
       sym_ortho (SFopp lit_10_0f) lit_10_0f (SFopp lit_10_0f) lit_10_0f
                 lit_0_1f lit_100_0f.
Proof.
  cbv zeta.
  set (env := mkEnv (only_key GLFW_KEY_O) dbl_0_5).
  assert (HO : glfwGetKey env GLFW_KEY_O = GLFW_PRESS) by reflexivity.
  assert (HP : glfwGetKey env GLFW_KEY_P <> GLFW_PRESS) by discriminate.
  split; [exact HO|]. split; [exact HP|].
  exact (proj1 (proj2 (projection_selected_by_polled_flag env
                         (ViewManager_ctor None))) HO HP).
Defined.

Lemma both_keys_select_perspective_witness :
  let env := mkEnv (both_keys GLFW_KEY_O GLFW_KEY_P) dbl_0_5 in
  let w := run [ev_Frame (mkEnv (only_key GLFW_KEY_O) dbl_0_5)]
               (ViewManager_ctor None) in
  let r := PrepareSceneView_matrices env w in
  glfwGetKey env GLFW_KEY_O = GLFW_PRESS
  /\ glfwGetKey env GLFW_KEY_P = GLFW_PRESS
  /\ bOrthographicProjection (globals w) = true
  /\ bOrthographicProjection (globals (snd r)) = false
  /\ snd (fst r) =
       sym_perspective (Flt.of_Z 80) (S754_finite false 10485760 (-23))
                       lit_0_1f lit_100_0f.
Proof.
  cbv zeta.
  set (env := mkEnv (both_keys GLFW_KEY_O GLFW_KEY_P) dbl_0_5).
  set (w := run [ev_Frame (mkEnv (only_key GLFW_KEY_O) dbl_0_5)]
                (ViewManager_ctor None)).
  assert (HO : glfwGetKey env GLFW_KEY_O = GLFW_PRESS) by reflexivity.
  assert (HP : glfwGetKey env GLFW_KEY_P = GLFW_PRESS) by reflexivity.
  split; [exact HO|]. split; [exact HP|]. split; [reflexivity|].
  destruct (both_keys_select_perspective env w HO HP) as (H1 & H2 & _).
  split; [exact H1|exact H2].
Defined.

Lemma delta_time_nonnegative_witness :
  let evs := [ev_Frame (mkEnv no_keys dbl_0_5);
              ev_Scroll lit_0_0f (Dbl.of_Z 1);
              ev_Frame (mkEnv (only_key GLFW_KEY_W) dbl_0_75);
              ev_Frame (mkEnv no_keys dbl_0_75);
              ev_Frame (mkEnv no_keys dbl_400_1)] in
  clock_monotone (S754_zero false) evs = true
  /\ Flt.leb lit_0_0f
       (gDeltaTime (globals (run evs (ViewManager_ctor None)))) = true.
Proof.
  cbv zeta.
  assert (H : clock_monotone (S754_zero false)
                [ev_Frame (mkEnv no_keys dbl_0_5);
                 ev_Scroll lit_0_0f (Dbl.of_Z 1);
                 ev_Frame (mkEnv (only_key GLFW_KEY_W) dbl_0_75);
                 ev_Frame (mkEnv no_keys dbl_0_75);
                 ev_Frame (mkEnv no_keys dbl_400_1)] = true)
    by (vm_compute; reflexivity).
  split; [exact H|].
  exact (proj1 (delta_time_nonnegative None _ H)).
Defined.

(** Beyond the range of any clock: two equal readings of [2 ^ 128] seconds
    both overflow to infinity in single precision, and the second delta time
    is a NaN. *)
Lemma delta_time_nan_when_clock_overflows :
  let evs := [ev_Frame (mkEnv no_keys dbl_2p128);
              ev_Frame (mkEnv no_keys dbl_2p128)] in
  Dbl.valid dbl_2p128 = true
  /\ is_finite dbl_2p128 = true
  /\ Dbl.leb (S754_zero false) dbl_2p128 = true
  /\ Dbl.leb dbl_2p128 dbl_2p128 = true
  /\ gDeltaTime (globals (run evs (ViewManager_ctor None))) = S754_nan
  /\ Flt.leb lit_0_0f
       (gDeltaTime (globals (run evs (ViewManager_ctor None)))) = false.
Proof. vm_compute. repeat split. Qed.

Lemma escape_requests_window_close_witness :
  let env := mkEnv (only_key GLFW_KEY_ESCAPE) dbl_0_5 in
  let w := exec (CreateDisplayWindow "scene" (Some 1%positive))
                (ViewManager_ctor None) in
  glfwGetKey env GLFW_KEY_ESCAPE = GLFW_PRESS
  /\ trace (exec (ProcessKeyboardEvents env) w) =
       trace w ++ [glfwSetWindowShouldClose (Some 1%positive) true]
  /\ glfwGetKey (mkEnv no_keys dbl_0_5) GLFW_KEY_ESCAPE <> GLFW_PRESS
  /\ trace (exec (ProcessKeyboardEvents (mkEnv no_keys dbl_0_5)) w) = trace w.
Proof.
  cbv zeta.
  set (w := exec (CreateDisplayWindow "scene" (Some 1%positive))
                 (ViewManager_ctor None)).
  assert (H1 : glfwGetKey (mkEnv (only_key GLFW_KEY_ESCAPE) dbl_0_5)
                 GLFW_KEY_ESCAPE = GLFW_PRESS) by reflexivity.
  assert (H2 : glfwGetKey (mkEnv no_keys dbl_0_5) GLFW_KEY_ESCAPE <> GLFW_PRESS)
    by discriminate.
  split; [exact H1|].
  split; [exact (proj1 (escape_requests_window_close _ w) H1)|].
  split; [exact H2|].
  exact (proj1 (proj2 (escape_requests_window_close _ w)) H2).
Defined.

Lemma shader_sink_guarded_by_null_test_witness :
  let env := mkEnv (only_key GLFW_KEY_O) dbl_0_5 in
  m_pShaderManager (this (ViewManager_ctor None)) = None
  /\ shader_writes (trace (exec (PrepareSceneView env) (ViewManager_ctor None)))
       = []
  /\ gLastFrame (globals (exec (PrepareSceneView env) (ViewManager_ctor None)))
       = S754_finite false 8388608 (-24)
  /\ m_pShaderManager (this (ViewManager_ctor (Some 7%positive)))
       = Some 7%positive
  /\ List.length (shader_writes
               (trace (exec (PrepareSceneView env)
                            (ViewManager_ctor (Some 7%positive))))) = 3%nat.
Proof.
  cbv zeta.
  set (env := mkEnv (only_key GLFW_KEY_O) dbl_0_5).
  assert (HN : m_pShaderManager (this (ViewManager_ctor None)) = None)
    by reflexivity.
  assert (HS : m_pShaderManager (this (ViewManager_ctor (Some 7%positive)))
               = Some 7%positive) by reflexivity.
  destruct (shader_sink_guarded_by_null_test env (ViewManager_ctor None))
    as [Hnull _].
  destruct (Hnull HN) as (Hw & _ & Hlf & _).
  destruct (shader_sink_guarded_by_null_test env
              (ViewManager_ctor (Some 7%positive))) as [_ Hsome].
  destruct (Hsome _ HS) as [_ Hws].
  split; [exact HN|]. split; [exact Hw|]. split; [exact Hlf|].
  split; [exact HS|]. rewrite Hws. reflexivity.
Defined.

(** * Further properties of the module *)

(** ** Every entry point in closed form *)

Section EntryPoints.
Context {ext : Collaborators}.

Lemma quiet_app t1 t2 : quiet (t1 ++ t2) = quiet t1 ++ quiet t2.
Proof. unfold quiet. apply filter_app. Qed.

Lemma cursor_exec x y w :
  let g := globals w in
  let lastX := if gFirstMouse g then double_to_float x else gLastX g in
  let lastY := if gFirstMouse g then double_to_float y else gLastY g in
  let xo := cursor_xOffset lastX x in
  let yo := cursor_yOffset lastY y in
  let m := clamp_speed (Flt.add (position_cb_gCameraSpeedMultiplier g)
                                (Flt.mul yo lit_0_1f)) in
  exec (Mouse_Position_Callback x y) w =
    mkWorld
      (mkGlobals (Camera_ProcessMouseMovement xo yo (g_pCamera g))
         (double_to_float x) (double_to_float y) false
         (gCameraSpeedMultiplier g) (gDeltaTime g) (gLastFrame g)
         (bOrthographicProjection g) m (scroll_cb_gCameraSpeedMultiplier g))
      (this w)
      (trace w ++ [ProcessMouseMovement xo yo;
                   cout (out_text_float "Camera Speed Multiplier: " m)]).
Proof.
  destruct w as [[cam lx ly first mult dt lf ortho pm sm] vm tr].
  unfold Mouse_Position_Callback, cursor_xOffset, cursor_yOffset. unfold_m.
  destruct first; cbn; rewrite <- ?app_assoc; reflexivity.
Qed.

Lemma frame_exec env w :
  let g1 := frame_timing env (globals w) in
  let c := g_pCamera g1 in
  let pos := fold_left (displaced_by_key env (keyboard_speed g1) c)
                       movement_keys (Position c) in
  let cam := set_Position pos c in
  let flag := polled_flag env (bOrthographicProjection (globals w)) in
  exec (PrepareSceneView env) w =
    mkWorld (set_bOrthographicProjection flag (set_g_pCamera cam g1)) (this w)
      (trace w ++ escape_calls env w ++
       match m_pShaderManager (this w) with
       | None => []
       | Some _ =>
           [setMat4Value "view" (Camera_GetViewMatrix cam);
            setMat4Value "projection"
              (if flag then orthographic_projection
               else perspective_projection cam);
            setVec3Value "viewPosition" pos]
       end).
Proof.
  cbv zeta. rewrite PrepareSceneView_exec. cbv zeta.
  rewrite PrepareSceneView_matrices_eq. cbv zeta. cbn [fst snd].
  unfold after_keyboard. rewrite ProcessKeyboardEvents_exec. cbv zeta.
  cbn [globals this trace].
  destruct (m_pShaderManager (this w)); cbn [globals this trace];
    rewrite <- ?app_assoc, ?app_nil_r; reflexivity.
Qed.

Lemma create_exec title created w :
  exec (step (ev_CreateDisplayWindow title created)) w =
    snd (CreateDisplayWindow title created w).
Proof.
  cbn [step]. unfold exec, bind.
  destruct (CreateDisplayWindow title created w) as [r w']. reflexivity.
Qed.

End EntryPoints.

Ltac step_cases e w :=
  destruct e as [?title [?win|] | ?x ?y | ?x ?y | ?env];
  [ rewrite create_exec, CreateDisplayWindow_some
  | rewrite create_exec, CreateDisplayWindow_null
  | cbn [step]; rewrite cursor_exec
  | cbn [step]; rewrite Mouse_Scroll_Callback_exec
  | cbn [step]; rewrite frame_exec ];
  cbv zeta; cbn [fst snd globals this trace].

(** ** Window creation *)

Section Window.
Context {ext : Collaborators}.

(** X1.  A successful creation returns the handle it was given, stores it in
    [m_pWindow], makes the context current, registers the cursor and scroll
    callbacks and sets up blending, in this order; it neither logs nor
    terminates the windowing subsystem, and the result is null exactly when
    the creation failed. *)
Theorem CreateDisplayWindow_success
    (windowTitle : string) (window : GLFWwindow) (w : World) :
  let r := CreateDisplayWindow windowTitle (Some window) w in
  fst r = Some window
  /\ m_pWindow (this (snd r)) = Some window
  /\ m_pShaderManager (this (snd r)) = m_pShaderManager (this w)
  /\ globals (snd r) = globals w
  /\ trace (snd r) =
       trace w ++ [glfwCreateWindow WINDOW_WIDTH WINDOW_HEIGHT windowTitle;
                   glfwMakeContextCurrent window;
                   glfwSetCursorPosCallback window cb_Mouse_Position_Callback;
                   glfwSetScrollCallback window cb_Mouse_Scroll_Callback;
                   glEnable GL_BLEND;
                   glBlendFunc GL_SRC_ALPHA GL_ONE_MINUS_SRC_ALPHA]
  /\ (forall created,
        fst (CreateDisplayWindow windowTitle created w) = created).
Proof.
  cbv zeta. rewrite CreateDisplayWindow_some. cbn [fst snd this globals trace
    m_pWindow m_pShaderManager].
  repeat split. intros [win|].
  - now rewrite CreateDisplayWindow_some.
  - now rewrite CreateDisplayWindow_null.
Qed.

Lemma step_this e w :
  this (exec (step e) w) =
    match e with
    | ev_CreateDisplayWindow _ (Some window) =>
        mkViewManager (m_pShaderManager (this w)) (Some window)
    | _ => this w
    end.
Proof. step_cases e w; reflexivity. Qed.

Lemma step_m_pShaderManager e w :
  m_pShaderManager (this (exec (step e) w)) = m_pShaderManager (this w).
Proof. rewrite step_this. now destruct e as [? [?|] | | | ]. Qed.

Lemma run_m_pShaderManager evs w :
  m_pShaderManager (this (run evs w)) = m_pShaderManager (this w).
Proof.
  revert w. induction evs as [|e evs IH]; intros w; cbn [run]; [reflexivity|].
  now rewrite IH, step_m_pShaderManager.
Qed.

(** X2.  After any run [m_pWindow] holds the handle of the last successful
    window creation; failed creations, input events and frames never clear or
    change it. *)
Theorem m_pWindow_is_last_created (evs : list Event) (w : World) :
  m_pWindow (this (run evs w)) = last_created evs (m_pWindow (this w)).
Proof.
  revert w. induction evs as [|e evs IH]; intros w; [reflexivity|].
  cbn [run]. unfold last_created in *. cbn [fold_left]. rewrite IH.
  f_equal. rewrite step_this. now destruct e as [? [?|] | | | ].
Qed.

End Window.

(** ** The cursor handler over runs *)

Lemma SFsub_finite_not_nan prec emax a b :
  is_nan a = false -> is_finite b = true ->
  is_nan (SFsub prec emax a b) = false.
Proof.
  destruct a as [sa|sa| |sa ma ea], b as [sb|sb| |sb mb eb]; cbn;
    try congruence; intros _ _.
  - now destruct sa, sb.
  - match goal with |- is_nan ?t = false => destruct t eqn:E end;
      try reflexivity.
    now apply binary_normalize_not_nan in E.
Qed.

Lemma in_speed_range_fixed v : in_speed_range v -> clamp_speed v = v.
Proof.
  intros [Hlo Hhi]. unfold clamp_speed, Flt.ltb, Flt.leb, SFltb, SFleb in *.
  destruct (SFcompare lit_0_1f v) as [c|] eqn:Hc; [|discriminate].
  destruct (SFcompare v lit_10_0f) as [d|] eqn:Hd; [|discriminate].
  rewrite (SFcompare_antisym _ _ _ Hc).
  destruct c; try discriminate; cbn [CompOpp];
    rewrite (SFcompare_antisym _ _ _ Hd); now destruct d.
Qed.

Section Cursor.
Context {ext : Collaborators}.

Lemma step_cursor_state e w :
  gFirstMouse (globals (exec (step e) w)) =
    match e with ev_CursorPos _ _ => false | _ => gFirstMouse (globals w) end
  /\ gLastX (globals (exec (step e) w)) =
       match e with
       | ev_CursorPos x _ => double_to_float x
       | _ => gLastX (globals w)
       end
  /\ gLastY (globals (exec (step e) w)) =
       match e with
       | ev_CursorPos _ y => double_to_float y
       | _ => gLastY (globals w)
       end.
Proof.
  step_cases e w; repeat split;
    destruct w as [[cam lx ly first mult dt lf ortho pm sm] vm tr]; reflexivity.
Qed.

Lemma run_app evs1 evs2 w : run (evs1 ++ evs2) w = run evs2 (run evs1 w).
Proof.
  revert w. induction evs1 as [|e evs1 IH]; intros w; cbn [run app];
    [reflexivity|apply IH].
Qed.

Lemma run_cursor_state evs : forall w,
  gFirstMouse (globals (run evs w)) =
    match last_cursor evs with
    | Some _ => false
    | None => gFirstMouse (globals w)
    end
  /\ gLastX (globals (run evs w)) =
       match last_cursor evs with
       | Some (x, _) => double_to_float x
       | None => gLastX (globals w)
       end
  /\ gLastY (globals (run evs w)) =
       match last_cursor evs with
       | Some (_, y) => double_to_float y
       | None => gLastY (globals w)
       end.
Proof.
  induction evs as [|e evs IH] using rev_ind; intros w; [now cbn|].
  rewrite run_app. cbn [run]. unfold last_cursor. rewrite fold_left_app.
  cbn [fold_left]. fold (last_cursor evs).
  destruct (step_cursor_state e (run evs w)) as (H1 & H2 & H3).
  rewrite H1, H2, H3. destruct (IH w) as (I1 & I2 & I3).
  destruct e as [? ? | x y | ? ? | ?]; auto.
Qed.

(** X3.  After a run whose last cursor event was at [(x, y)], whatever else
    happened before or after it, the stored cursor position is [(x, y)]
    narrowed to single precision and the first-mouse flag is cleared; no event
    ever sets the flag again. *)
Theorem cursor_state_tracks_last_event
    (evs : list Event) (x y : double) (w : World) :
  last_cursor evs = Some (x, y) ->
  gLastX (globals (run evs w)) = double_to_float x
  /\ gLastY (globals (run evs w)) = double_to_float y
  /\ gFirstMouse (globals (run evs w)) = false
  /\ (forall evs', gFirstMouse (globals (run evs' (run evs w))) = false).
Proof.
  intros Hlast. destruct (run_cursor_state evs w) as (H1 & H2 & H3).
  rewrite Hlast in H1, H2, H3. repeat split; try assumption.
  intros evs'. destruct (run_cursor_state evs' (run evs w)) as (H1' & _).
  rewrite H1'. now destruct (last_cursor evs').
Qed.

(** X4.  A cursor event that follows one at a position single precision holds
    exactly forwards the narrowed double-precision differences
    [x2 - x1] and [y1 - y2], each times the sensitivity [2.5f]; when the
    cursor has not moved both are exactly [+0]. *)
Theorem cursor_offsets_from_exact_position
    (x1 y1 x2 y2 : double) (w : World) :
  single_representable x1 -> single_representable y1 ->
  let w1 := exec (Mouse_Position_Callback x1 y1) w in
  let w2 := exec (Mouse_Position_Callback x2 y2) w1 in
  let xo := Flt.mul (double_to_float (Dbl.sub x2 x1)) lit_2_5f in
  let yo := Flt.mul (double_to_float (Dbl.sub y1 y2)) lit_2_5f in
  forwarded_offsets (trace w2) = forwarded_offsets (trace w1) ++ [(xo, yo)]
  /\ g_pCamera (globals w2) =
       Camera_ProcessMouseMovement xo yo (g_pCamera (globals w1))
  /\ (x2 = x1 -> y2 = y1 -> (xo, yo) = (S754_zero false, S754_zero false)).
Proof.
  intros [Hfx Hx] [Hfy Hy]. cbv zeta.
  destruct (step_cursor_state (ev_CursorPos x1 y1) w) as (F & LX & LY).
  cbn [step] in F, LX, LY.
  set (w1 := exec (Mouse_Position_Callback x1 y1) w) in *.
  rewrite (cursor_exec x2 y2 w1). cbv zeta. cbn [globals trace g_pCamera].
  rewrite F, LX, LY. unfold cursor_xOffset, cursor_yOffset. rewrite Hx, Hy.
  rewrite forwarded_offsets_app. cbn [forwarded_offsets flat_map app].
  repeat split.
  intros -> ->. unfold Dbl.sub. now rewrite !SFsub_diag.
Qed.

End Cursor.

(** ** The direction of the forwarded offsets *)

Lemma same_sign_not_negative r : same_sign_not_nan false r -> not_negative r.
Proof. destruct r; cbn; tauto. Qed.

Lemma same_sign_not_positive r : same_sign_not_nan true r -> not_positive r.
Proof. destruct r; cbn; tauto. Qed.

Lemma SFsub_ordered_rev prec emax B m1 e1 m2 e2 :
  B <= e1 -> B <= e2 ->
  Zpos m1 * 2 ^ (e1 - B) <= Zpos m2 * 2 ^ (e2 - B) ->
  not_positive
    (SFsub prec emax (S754_finite false m1 e1) (S754_finite false m2 e2)).
Proof.
  intros HB1 HB2 Hle. cbn [SFsub cond_Zopp].
  destruct (shl_align_spec m1 e1 (Z.min e1 e2)) as [_ H1].
  destruct (shl_align_spec m2 e2 (Z.min e1 e2)) as [_ H2].
  rewrite H1, H2.
  replace (Z.min e1 (Z.min e1 e2)) with (Z.min e1 e2) by lia.
  replace (Z.min e2 (Z.min e1 e2)) with (Z.min e1 e2) by lia.
  set (ez := Z.min e1 e2).
  assert (Hz : 0 < 2 ^ (ez - B)) by (apply Z.pow_pos_nonneg; lia).
  assert (E1 : Zpos m1 * 2 ^ (e1 - B) = Zpos m1 * 2 ^ (e1 - ez) * 2 ^ (ez - B)).
  { rewrite <- Z.mul_assoc, <- Z.pow_add_r by lia. f_equal. f_equal. lia. }
  assert (E2 : Zpos m2 * 2 ^ (e2 - B) = Zpos m2 * 2 ^ (e2 - ez) * 2 ^ (ez - B)).
  { rewrite <- Z.mul_assoc, <- Z.pow_add_r by lia. f_equal. f_equal. lia. }
  rewrite E1, E2 in Hle.
  assert (Hd : Zpos m1 * 2 ^ (e1 - ez) - Zpos m2 * 2 ^ (e2 - ez) <= 0) by nia.
  destruct (Zpos m1 * 2 ^ (e1 - ez) - Zpos m2 * 2 ^ (e2 - ez)) as [|p|p];
    cbn [binary_normalize]; try lia.
  - exact I.
  - apply same_sign_not_positive, binary_round_shape.
Qed.

Lemma Dbl_sub_signs (a b : double) :
  screen_coordinate a -> screen_coordinate b -> Dbl.leb a b = true ->
  not_negative (Dbl.sub b a) /\ not_positive (Dbl.sub a b).
Proof.
  intros (Hva & Hfa & H0a) (Hvb & Hfb & H0b) Hab.
  destruct (nonneg_finite_cases a Hfa H0a) as [[sa ->]|(ma & ea & ->)];
    destruct (nonneg_finite_cases b Hfb H0b) as [[sb ->]|(mb & eb & ->)].
  - now destruct sa, sb.
  - now destruct sa.
  - cbn in Hab. discriminate.
  - set (B := emin Dbl.prec Dbl.emax).
    assert (HBa : B <= ea) by (apply (bounded_ge_emin _ _ ma); exact Hva).
    assert (HBb : B <= eb) by (apply (bounded_ge_emin _ _ mb); exact Hvb).
    pose proof (SFleb_value Dbl.prec Dbl.emax B ma ea mb eb Hva Hvb HBa HBb Hab)
      as HX.
    split.
    + apply same_sign_not_negative.
      now apply (SFsub_ordered Dbl.prec Dbl.emax B).
    + now apply (SFsub_ordered_rev Dbl.prec Dbl.emax B).
Qed.

Lemma round_to_not_negative prec emax r :
  not_negative r -> not_negative (round_to prec emax r).
Proof.
  destruct r as [s|s| |s m e]; cbn [round_to not_negative]; try tauto.
  intros ->. apply same_sign_not_negative, binary_round_shape.
Qed.

Lemma round_to_not_positive prec emax r :
  not_positive r -> not_positive (round_to prec emax r).
Proof.
  destruct r as [s|s| |s m e]; cbn [round_to not_positive]; try tauto.
  intros ->. apply same_sign_not_positive, binary_round_shape.
Qed.

Lemma SFmul_positive_not_negative prec emax r m e :
  not_negative r -> not_negative (SFmul prec emax r (S754_finite false m e)).
Proof.
  destruct r as [s|s| |s mr er]; cbn [SFmul not_negative]; try tauto.
  - intros ->. reflexivity.
  - intros ->. apply same_sign_not_negative.
    apply binary_round_aux_shape. lia.
Qed.

Lemma SFmul_positive_not_positive prec emax r m e :
  not_positive r -> not_positive (SFmul prec emax r (S754_finite false m e)).
Proof.
  destruct r as [s|s| |s mr er]; cbn [SFmul not_positive]; try tauto.
  - intros ->. reflexivity.
  - intros ->. apply same_sign_not_positive.
    apply binary_round_aux_shape. lia.
Qed.

Lemma not_negative_leb r : not_negative r -> SFleb (S754_zero false) r = true.
Proof. destruct r as [s|s| |s m e]; cbn; try tauto; now intros ->. Qed.

Lemma not_positive_leb r : not_positive r -> SFleb r (S754_zero false) = true.
Proof. destruct r as [s|s| |s m e]; cbn; try tauto; now intros ->. Qed.

Section CursorDirection.
Context {ext : Collaborators}.

(** X5.  After a cursor event at an exactly stored position inside the
    screen quadrant, the next event gives a yaw delta that is not negative
    when the cursor moved right and not positive when it moved left, and a
    pitch delta that is not positive when the cursor moved down ([y] grew)
    and not negative when it moved up: the vertical axis is reversed. *)
Theorem cursor_offsets_follow_direction
    (x1 y1 x2 y2 : double) (w : World) :
  single_representable x1 -> single_representable y1 ->
  screen_coordinate x1 -> screen_coordinate y1 ->
  screen_coordinate x2 -> screen_coordinate y2 ->
  let w1 := exec (Mouse_Position_Callback x1 y1) w in
  let w2 := exec (Mouse_Position_Callback x2 y2) w1 in
  exists xo yo,
    forwarded_offsets (trace w2) = forwarded_offsets (trace w1) ++ [(xo, yo)]
    /\ (Dbl.leb x1 x2 = true -> Flt.leb lit_0_0f xo = true)
    /\ (Dbl.leb x2 x1 = true -> Flt.leb xo lit_0_0f = true)
    /\ (Dbl.leb y1 y2 = true -> Flt.leb yo lit_0_0f = true)
    /\ (Dbl.leb y2 y1 = true -> Flt.leb lit_0_0f yo = true).
Proof.
  intros [Hfx Hx] [Hfy Hy] Sx1 Sy1 Sx2 Sy2. cbv zeta.
  destruct (step_cursor_state (ev_CursorPos x1 y1) w) as (F & LX & LY).
  cbn [step] in F, LX, LY.
  set (w1 := exec (Mouse_Position_Callback x1 y1) w) in *.
  rewrite (cursor_exec x2 y2 w1). cbv zeta. cbn [globals trace].
  rewrite F, LX, LY. unfold cursor_xOffset, cursor_yOffset. rewrite Hx, Hy.
  rewrite forwarded_offsets_app. cbn [forwarded_offsets flat_map app].
  do 2 eexists. split; [reflexivity|].
  unfold Flt.leb, Flt.mul, lit_0_0f, lit_2_5f, double_to_float.
  repeat split; intros Hle.
  - apply not_negative_leb, SFmul_positive_not_negative, round_to_not_negative.
    now apply (Dbl_sub_signs x1 x2).
  - apply not_positive_leb, SFmul_positive_not_positive, round_to_not_positive.
    now apply (Dbl_sub_signs x2 x1).
  - apply not_positive_leb, SFmul_positive_not_positive, round_to_not_positive.
    now apply (Dbl_sub_signs y1 y2).
  - apply not_negative_leb, SFmul_positive_not_negative, round_to_not_negative.
    now apply (Dbl_sub_signs y2 y1).
Qed.

(** ** The multiplier of the cursor handler *)

Lemma step_position_multiplier_in_range e w :
  cursor_position_is_finite e ->
  in_speed_range (position_cb_gCameraSpeedMultiplier (globals w)) ->
  is_nan (gLastY (globals w)) = false ->
  in_speed_range
    (position_cb_gCameraSpeedMultiplier (globals (exec (step e) w)))
  /\ is_nan (gLastY (globals (exec (step e) w))) = false.
Proof.
  intros He Hm Hy.
  step_cases e w; try (split; assumption).
  cbn [position_cb_gCameraSpeedMultiplier gLastY].
  destruct He as [_ Hfy].
  assert (Hny : is_nan y = false) by (now destruct y).
  pose proof (round_to_not_nan Flt.prec Flt.emax y Hny) as Hdy.
  fold (double_to_float y) in Hdy.
  split; [|exact Hdy].
  apply clamp_speed_in_range. unfold Flt.add, Flt.mul, lit_0_1f.
  apply SFadd_finite_not_nan; [now apply in_speed_range_finite|].
  apply SFmul_finite_not_nan.
  unfold cursor_yOffset, Flt.mul, lit_2_5f. apply SFmul_finite_not_nan.
  apply round_to_not_nan. unfold Dbl.sub.
  apply SFsub_finite_not_nan; [|assumption].
  apply round_to_not_nan. now destruct (gFirstMouse (globals w)).
Qed.

(** X6.  The cursor handler keeps a speed multiplier of its own, updated from
    the vertical offset and clamped like the one of the scroll handler.  After
    any run whose cursor positions are finite it lies between [0.1f] and
    [10.0f], whatever the scroll deltas and clock readings were. *)
Theorem position_multiplier_in_range
    (pShaderManager : option ShaderManager) (evs : list Event) :
  Forall cursor_position_is_finite evs ->
  in_speed_range
    (position_cb_gCameraSpeedMultiplier
       (globals (run evs (ViewManager_ctor pShaderManager)))).
Proof.
  intros Hevs.
  assert (Hgen : forall w,
            in_speed_range (position_cb_gCameraSpeedMultiplier (globals w)) ->
            is_nan (gLastY (globals w)) = false ->
            in_speed_range
              (position_cb_gCameraSpeedMultiplier (globals (run evs w)))).
  { induction Hevs as [|e evs He _ IH]; intros w Hm Hy; cbn [run].
    - exact Hm.
    - destruct (step_position_multiplier_in_range e w He Hm Hy) as [Hm' Hy'].
      now apply IH. }
  apply Hgen; [split; reflexivity|reflexivity].
Qed.

End CursorDirection.

(** ** Scroll events are invisible to the rest of the module *)

Section ScrollIsolation.
Context {ext : Collaborators}.

Lemma observable_inv w1 w2 :
  observable w1 = observable w2 ->
  this w1 = this w2 /\ quiet (trace w1) = quiet (trace w2)
  /\ set_scroll_cb_gCameraSpeedMultiplier lit_1_0f (globals w1) =
     set_scroll_cb_gCameraSpeedMultiplier lit_1_0f (globals w2).
Proof.
  unfold observable. intros H. repeat split.
  - exact (f_equal (fun t => snd (fst t)) H).
  - exact (f_equal snd H).
  - exact (f_equal (fun t => fst (fst t)) H).
Qed.

Lemma step_observable e w1 w2 :
  is_scroll e = false ->
  observable w1 = observable w2 ->
  observable (exec (step e) w1) = observable (exec (step e) w2).
Proof.
  intros He Hobs. apply observable_inv in Hobs.
  destruct Hobs as (Hthis & Htrace & Hg).
  destruct w1 as [[cam1 lx1 ly1 fm1 mult1 dt1 lf1 ortho1 pm1 sm1] vm1 tr1].
  destruct w2 as [[cam2 lx2 ly2 fm2 mult2 dt2 lf2 ortho2 pm2 sm2] vm2 tr2].
  cbn [this trace globals] in Hthis, Htrace, Hg.
  injection Hg as -> -> -> -> -> -> -> -> ->. subst vm2.
  destruct e as [title [win|] | x y | x y | env]; try discriminate.
  - rewrite !create_exec, !CreateDisplayWindow_some. unfold observable.
    cbn [fst snd globals this trace]. now rewrite !quiet_app, Htrace.
  - rewrite !create_exec, !CreateDisplayWindow_null. unfold observable.
    cbn [fst snd globals this trace]. now rewrite !quiet_app, Htrace.
  - cbn [step]. rewrite !cursor_exec. cbv zeta. unfold observable.
    cbn [globals this trace]. now rewrite !quiet_app, Htrace.
  - cbn [step]. rewrite !frame_exec. cbv zeta. unfold observable.
    cbn [globals this trace]. now rewrite !quiet_app, Htrace.
Qed.

Lemma scroll_observable x y w :
  observable (exec (Mouse_Scroll_Callback x y) w) = observable w.
Proof.
  rewrite Mouse_Scroll_Callback_exec. cbv zeta. unfold observable.
  cbn [globals this trace]. rewrite quiet_app. cbn. now rewrite app_nil_r.
Qed.

(** X7.  Scroll events change nothing but the static of the scroll handler
    and the log: the camera, the timing, the projection flag, the stored
    cursor state, the members of the object and every call other than a log
    line are the same as in the run with the scroll events removed. *)
Theorem scroll_events_are_unobservable (evs : list Event) (w : World) :
  observable (run evs w) = observable (run (without_scroll evs) w).
Proof.
  assert (Hgen : forall w1 w2, observable w1 = observable w2 ->
            observable (run evs w1) = observable (run (without_scroll evs) w2)).
  { induction evs as [|e evs IH]; intros w1 w2 H; [exact H|].
    cbn [run without_scroll filter]. fold (without_scroll evs).
    destruct (is_scroll e) eqn:He; cbn [negb run].
    - apply IH. destruct e; try discriminate. cbn [step].
      now rewrite scroll_observable.
    - apply IH. now apply step_observable. }
  now apply Hgen.
Qed.

(** X8.  A scroll event with a zero vertical delta leaves a multiplier that
    is inside the interval exactly as it was, whatever the horizontal
    delta. *)
Theorem scroll_zero_delta_keeps_multiplier
    (xOffset : double) (s : bool) (w : World) :
  in_speed_range (scroll_cb_gCameraSpeedMultiplier (globals w)) ->
  scroll_cb_gCameraSpeedMultiplier
    (globals (exec (Mouse_Scroll_Callback xOffset (S754_zero s)) w)) =
  scroll_cb_gCameraSpeedMultiplier (globals w).
Proof.
  intros Hin. rewrite scroll_step_eq.
  destruct (scroll_cb_gCameraSpeedMultiplier (globals w)) as [sm|sm| |sm m e]
    eqn:Hm.
  - destruct Hin as [Hlo _]. cbn in Hlo. discriminate.
  - apply in_speed_range_finite in Hin. discriminate.
  - apply in_speed_range_finite in Hin. discriminate.
  - replace (Flt.add (S754_finite sm m e)
               (Flt.mul (double_to_float (S754_zero s)) lit_0_1f))
      with (S754_finite sm m e) by now destruct s.
    now apply in_speed_range_fixed.
Qed.

End ScrollIsolation.

(** ** The clamp *)

Lemma clamp_speed_below v :
  Flt.ltb v lit_0_1f = true -> clamp_speed v = lit_0_1f.
Proof. intros H. unfold clamp_speed. now rewrite H. Qed.

Lemma above_is_not_below v :
  Flt.ltb lit_10_0f v = true -> Flt.ltb v lit_0_1f = false.
Proof.
  unfold Flt.ltb, SFltb, lit_10_0f, lit_0_1f.
  destruct v as [s|[|]| |[|] m e]; cbn [SFcompare]; try discriminate;
    try reflexivity.
  destruct (Z.compare_spec (-20) e) as [He|He|He]; try discriminate; intros _.
  - subst e. reflexivity.
  - destruct (Z.compare_spec e (-27)) as [He'|He'|He']; try reflexivity; lia.
Qed.

Lemma clamp_speed_above v :
  Flt.ltb lit_10_0f v = true -> clamp_speed v = lit_10_0f.
Proof.
  intros H. unfold clamp_speed. now rewrite (above_is_not_below v H), H.
Qed.

Lemma speed_trichotomy v :
  is_nan v = false ->
  Flt.ltb v lit_0_1f = true \/ in_speed_range v \/ Flt.ltb lit_10_0f v = true.
Proof.
  intros Hv. unfold in_speed_range, Flt.ltb, Flt.leb, SFltb, SFleb.
  destruct (SFcompare_not_nan v lit_0_1f Hv eq_refl) as [c Hc].
  destruct (SFcompare_not_nan lit_10_0f v eq_refl Hv) as [d Hd].
  rewrite Hc, Hd, (SFcompare_antisym _ _ _ Hc), (SFcompare_antisym _ _ _ Hd).
  destruct c; cbn [CompOpp]; auto; destruct d; cbn [CompOpp]; auto.
Qed.

(** X9.  The two tests after a multiplier update form a clamp.  A value
    inside the interval is returned unchanged, a value below [0.1f] becomes
    exactly [0.1f], a value above [10.0f] becomes exactly [10.0f], and every
    number is in one of these three cases; a NaN fails both tests and passes
    through unchanged; applying the tests twice changes nothing more. *)
Theorem clamp_speed_is_a_clamp (v : float) :
  (in_speed_range v -> clamp_speed v = v)
  /\ (Flt.ltb v lit_0_1f = true -> clamp_speed v = lit_0_1f)
  /\ (Flt.ltb lit_10_0f v = true -> clamp_speed v = lit_10_0f)
  /\ (is_nan v = false ->
      Flt.ltb v lit_0_1f = true \/ in_speed_range v
      \/ Flt.ltb lit_10_0f v = true)
  /\ (is_nan v = true -> clamp_speed v = v /\ ~ in_speed_range v)
  /\ clamp_speed (clamp_speed v) = clamp_speed v.
Proof.
  split; [apply in_speed_range_fixed|].
  split; [apply clamp_speed_below|].
  split; [apply clamp_speed_above|].
  split; [apply speed_trichotomy|].
  split.
  - destruct v; try discriminate. intros _. split; [reflexivity|].
    intros [H _]. discriminate.
  - destruct (is_nan v) eqn:Hn.
    + destruct v; try discriminate. reflexivity.
    + apply in_speed_range_fixed. now apply clamp_speed_in_range.
Qed.

(** ** The projection flag, the sink and the close request over runs *)

Section Runs.
Context {ext : Collaborators}.

Lemma step_flag e w :
  bOrthographicProjection (globals (exec (step e) w)) =
    match e with
    | ev_Frame env => polled_flag env (bOrthographicProjection (globals w))
    | _ => bOrthographicProjection (globals w)
    end.
Proof.
  step_cases e w; reflexivity.
Qed.

(** X10.  From construction the projection stays perspective, through any
    run, for as long as no frame sees the O key pressed. *)
Theorem perspective_until_O_is_pressed
    (pShaderManager : option ShaderManager) (evs : list Event) :
  Forall (never_presses GLFW_KEY_O) evs ->
  bOrthographicProjection
    (globals (run evs (ViewManager_ctor pShaderManager))) = false.
Proof.
  intros Hevs.
  assert (Hgen : forall w, bOrthographicProjection (globals w) = false ->
                           bOrthographicProjection (globals (run evs w)) = false).
  { induction Hevs as [|e evs He _ IH]; intros w Hw; cbn [run]; [exact Hw|].
    apply IH. rewrite step_flag, Hw.
    destruct e as [? ? | ? ? | ? ? | env]; try reflexivity.
    unfold never_presses in He. cbn [frame_presses] in He.
    unfold polled_flag. rewrite He.
    now destruct (is_press (glfwGetKey env GLFW_KEY_P)). }
  now apply Hgen.
Qed.

(** X11.  Once the orthographic flag is set it stays set, through frames with
    or without O and through every other event, until a frame sees the P key
    pressed. *)
Theorem orthographic_until_P_is_pressed (evs : list Event) (w : World) :
  bOrthographicProjection (globals w) = true ->
  Forall (never_presses GLFW_KEY_P) evs ->
  bOrthographicProjection (globals (run evs w)) = true.
Proof.
  intros Hw Hevs. revert w Hw.
  induction Hevs as [|e evs He _ IH]; intros w Hw; cbn [run]; [exact Hw|].
  apply IH. rewrite step_flag, Hw.
  destruct e as [? ? | ? ? | ? ? | env]; try reflexivity.
  unfold never_presses in He. cbn [frame_presses] in He.
  unfold polled_flag. rewrite He.
  now destruct (is_press (glfwGetKey env GLFW_KEY_O)).
Qed.

Lemma frame_trace env w :
  exists l,
    trace (exec (PrepareSceneView env) w) = trace w ++ escape_calls env w ++ l
    /\ close_writes l = []
    /\ shader_writes l = l
    /\ List.length l =
         match m_pShaderManager (this w) with
         | Some _ => 3%nat
         | None => 0%nat
         end.
Proof.
  rewrite frame_exec. cbv zeta. cbn [trace].
  destruct (m_pShaderManager (this w)); eexists; repeat split.
Qed.

Lemma step_shader_writes e w :
  exists l,
    shader_writes (trace (exec (step e) w)) = shader_writes (trace w) ++ l
    /\ List.length l =
         match m_pShaderManager (this w) with
         | Some _ => if is_frame e then 3%nat else 0%nat
         | None => 0%nat
         end.
Proof.
  assert (Hnone : forall t,
            shader_writes (trace w ++ t) = shader_writes (trace w) ++ [] ->
            is_frame e = false ->
            exists l, shader_writes (trace w ++ t) = shader_writes (trace w) ++ l
              /\ List.length l =
                   match m_pShaderManager (this w) with
                   | Some _ => if is_frame e then 3%nat else 0%nat
                   | None => 0%nat
                   end).
  { intros t Ht Hf. exists []. split; [exact Ht|]. rewrite Hf.
    now destruct (m_pShaderManager (this w)). }
  destruct e as [title [win|] | x y | x y | env];
    [ rewrite create_exec, CreateDisplayWindow_some
    | rewrite create_exec, CreateDisplayWindow_null
    | cbn [step]; rewrite cursor_exec
    | cbn [step]; rewrite Mouse_Scroll_Callback_exec
    | cbn [step] ];
    cbv zeta; cbn [fst snd globals this trace].
  - apply Hnone; [now rewrite shader_writes_app|reflexivity].
  - apply Hnone; [now rewrite shader_writes_app|reflexivity].
  - apply Hnone; [now rewrite shader_writes_app|reflexivity].
  - apply Hnone; [now rewrite shader_writes_app|reflexivity].
  - destruct (frame_trace env w) as (l & -> & _ & Hs & Hl).
    rewrite !shader_writes_app, shader_writes_escape, Hs. cbn [app is_frame].
    exists l. split; [reflexivity|exact Hl].
Qed.

(** X12.  Over any run the shader sink receives exactly three writes per
    frame when the manager was constructed with a shader manager and none at
    all when it was constructed without one; no event changes that pointer. *)
Theorem shader_writes_three_per_frame (evs : list Event) (w : World) :
  List.length (shader_writes (trace (run evs w))) =
    (List.length (shader_writes (trace w)) +
     match m_pShaderManager (this w) with
     | Some _ => 3 * List.length (filter is_frame evs)
     | None => 0
     end)%nat
  /\ m_pShaderManager (this (run evs w)) = m_pShaderManager (this w).
Proof.
  split; [|apply run_m_pShaderManager].
  revert w. induction evs as [|e evs IH]; intros w; cbn [run filter].
  - destruct (m_pShaderManager (this w)); cbn; lia.
  - rewrite IH, step_m_pShaderManager.
    destruct (step_shader_writes e w) as (l & -> & Hl).
    rewrite length_app, Hl.
    destruct (m_pShaderManager (this w)), (is_frame e); cbn [List.length]; lia.
Qed.

Lemma step_close_writes e w :
  exists l,
    close_writes (trace (exec (step e) w)) = close_writes (trace w) ++ l
    /\ Forall (fun p => snd p = true) l
    /\ List.length l =
         if frame_presses GLFW_KEY_ESCAPE e then 1%nat else 0%nat.
Proof.
  assert (Hnone : forall t,
            close_writes (trace w ++ t) = close_writes (trace w) ++ [] ->
            frame_presses GLFW_KEY_ESCAPE e = false ->
            exists l, close_writes (trace w ++ t) = close_writes (trace w) ++ l
              /\ Forall (fun p => snd p = true) l
              /\ List.length l =
                   if frame_presses GLFW_KEY_ESCAPE e then 1%nat else 0%nat).
  { intros t Ht Hf. exists []. split; [exact Ht|]. rewrite Hf.
    split; [constructor|reflexivity]. }
  destruct e as [title [win|] | x y | x y | env];
    [ rewrite create_exec, CreateDisplayWindow_some
    | rewrite create_exec, CreateDisplayWindow_null
    | cbn [step]; rewrite cursor_exec
    | cbn [step]; rewrite Mouse_Scroll_Callback_exec
    | cbn [step] ];
    cbv zeta; cbn [fst snd globals this trace].
  - apply Hnone; [now rewrite close_writes_app|reflexivity].
  - apply Hnone; [now rewrite close_writes_app|reflexivity].
  - apply Hnone; [now rewrite close_writes_app|reflexivity].
  - apply Hnone; [now rewrite close_writes_app|reflexivity].
  - destruct (frame_trace env w) as (l & -> & Hc & _).
    rewrite !close_writes_app, close_writes_escape, Hc, app_nil_r.
    cbn [frame_presses].
    destruct (is_press (glfwGetKey env GLFW_KEY_ESCAPE)).
    + eexists. split; [reflexivity|]. split; [repeat constructor|reflexivity].
    + exists []. split; [reflexivity|]. split; [constructor|reflexivity].
Qed.

(** X13.  Over any run the module requests a window close once for every
    frame that sees Escape pressed and never otherwise, and every request
    sets the flag: the module never clears it. *)
Theorem close_requests_only_set_the_flag (evs : list Event) (w : World) :
  exists l,
    close_writes (trace (run evs w)) = close_writes (trace w) ++ l
    /\ Forall (fun p => snd p = true) l
    /\ List.length l =
         List.length (filter (frame_presses GLFW_KEY_ESCAPE) evs).
Proof.
  revert w. induction evs as [|e evs IH]; intros w; cbn [run filter].
  - exists []. rewrite app_nil_r. repeat split. constructor.
  - destruct (IH (exec (step e) w)) as (l2 & E2 & F2 & L2).
    destruct (step_close_writes e w) as (l1 & E1 & F1 & L1).
    exists (l1 ++ l2). rewrite E2, E1, <- app_assoc. split; [reflexivity|].
    split; [now apply Forall_app|].
    rewrite length_app, L1, L2.
    destruct (frame_presses GLFW_KEY_ESCAPE e); reflexivity.
Qed.

Lemma run_snoc evs e w : run (evs ++ [e]) w = exec (step e) (run evs w).
Proof. now rewrite run_app. Qed.


End Runs.

(** ** The lifetime of the camera *)

Lemma life_step_ok op h : heap_ok h -> heap_ok (life_step op h).
Proof.
  intros Hok. pose proof Hok as (Hptr & Hbound & Hnd).
  destruct op as [sh|object]; cbn [life_step].
  - unfold ViewManager_construct. cbn [life_heap].
    split; [|split]; cbn [heap_g_pCamera heap_live heap_next].
    + intros p [= <-]. now left.
    + intros p [<-|Hin]; [lia|]. specialize (Hbound p Hin). lia.
    + constructor; [|exact Hnd]. intros Hin.
      specialize (Hbound _ Hin). lia.
  - unfold ViewManager_destruct. cbn [life_heap].
    destruct (heap_g_pCamera h) as [p|] eqn:Hp;
      [|exact Hok].
    split; [|split]; cbn [heap_g_pCamera heap_live heap_next].
    + discriminate.
    + intros q Hin. apply in_remove in Hin. now apply Hbound.
    + clear - Hnd. induction Hnd as [|a l Ha _ IH]; cbn [remove].
      * constructor.
      * destruct (Pos.eq_dec p a); [exact IH|].
        constructor; [|exact IH]. intros Hin. apply in_remove in Hin. tauto.
Qed.

Lemma life_run_ok ops : forall h, heap_ok h -> heap_ok (life_run ops h).
Proof.
  unfold life_run. induction ops as [|op ops IH]; intros h Hh; [exact Hh|].
  cbn [fold_left]. apply IH. now apply life_step_ok.
Qed.

(** X15.  Through any sequence of constructions and destructions the pointer
    [g_pCamera] is null or refers to a live camera, so the destructor never
    deletes a camera twice; a destructor leaves the pointer null, and a second
    destructor in a row changes nothing. *)
Theorem camera_pointer_never_dangles (ops : list LifeOp) :
  let h := life_run ops heap_initial in
  (forall p, heap_g_pCamera h = Some p -> In p (heap_live h))
  /\ NoDup (heap_live h)
  /\ (forall object object',
        let h1 := life_step (op_destruct object) h in
        heap_g_pCamera h1 = None
        /\ life_step (op_destruct object') h1 = h1).
Proof.
  cbv zeta.
  assert (Hok : heap_ok (life_run ops heap_initial)).
  { apply life_run_ok. repeat split; cbn; try tauto; try discriminate.
    constructor. }
  destruct Hok as (Hptr & _ & Hnd). split; [exact Hptr|]. split; [exact Hnd|].
  intros object object'. cbn [life_step]. unfold ViewManager_destruct.
  cbn [life_heap].
  destruct (heap_g_pCamera (life_run ops heap_initial)) as [p|] eqn:Hp;
    cbn [heap_g_pCamera]; [auto|]. rewrite Hp. auto.
Qed.

Lemma life_step_keeps_unreachable op h q :
  heap_ok h -> In q (heap_live h) -> heap_g_pCamera h <> Some q ->
  In q (heap_live (life_step op h)) /\ heap_g_pCamera (life_step op h) <> Some q.
Proof.
  intros (Hptr & Hbound & Hnd) Hin Hne.
  destruct op as [sh|object]; cbn [life_step].
  - unfold ViewManager_construct.
    cbn [life_heap heap_live heap_g_pCamera]. split; [now right|].
    intros [= E]. specialize (Hbound q Hin). lia.
  - unfold ViewManager_destruct. cbn [life_heap].
    destruct (heap_g_pCamera h) as [p|] eqn:Hp;
      cbn [heap_live heap_g_pCamera]; [|split; [assumption|congruence]].
    split; [|discriminate]. apply in_in_remove; [congruence|assumption].
Qed.

(** X16.  The constructor overwrites [g_pCamera] without deleting what it
    referred to: a camera that is live when a second manager is constructed
    stays allocated through every later construction and destruction, since
    only the camera the pointer refers to is ever deleted. *)
Theorem second_construction_leaks_the_camera
    (before after : list LifeOp) (sh : option ShaderManager) (p : positive) :
  heap_g_pCamera (life_run before heap_initial) = Some p ->
  In p (heap_live
          (life_run (before ++ op_construct sh :: after) heap_initial)).
Proof.
  intros Hp. unfold life_run. rewrite fold_left_app. cbn [fold_left].
  fold (life_run before heap_initial).
  set (h := life_run before heap_initial) in *.
  assert (Hok : heap_ok h).
  { apply life_run_ok. repeat split; cbn; try tauto; try discriminate.
    constructor. }
  assert (Hin : In p (heap_live h)) by (destruct Hok as [Hptr _]; now apply Hptr).
  assert (Hgen : forall ops h', heap_ok h' -> In p (heap_live h') ->
            heap_g_pCamera h' <> Some p ->
            In p (heap_live (fold_left (fun h op => life_step op h) ops h'))).
  { induction ops as [|op ops IH]; intros h' Hok' Hin' Hne'; [exact Hin'|].
    cbn [fold_left].
    destruct (life_step_keeps_unreachable op h' p Hok' Hin' Hne') as [H1 H2].
    apply IH; auto. now apply life_step_ok. }
  apply Hgen.
  - now apply (life_step_ok (op_construct sh)).
  - cbn. now right.
  - cbn. intros [= E]. destruct Hok as (_ & Hbound & _).
    specialize (Hbound p Hin). lia.
Qed.

(** ** The further properties at concrete inputs *)

Lemma cursor_state_tracks_last_event_witness :
  let evs := [ev_CursorPos (Dbl.of_Z 10) (Dbl.of_Z 20);
              ev_CursorPos dbl_400_1 dbl_300_3;
              ev_Scroll lit_0_0f (Dbl.of_Z 1);
              ev_Frame (mkEnv no_keys dbl_0_5)] in
  last_cursor evs = Some (dbl_400_1, dbl_300_3)
  /\ gLastX (globals (run evs (ViewManager_ctor None)))
       = double_to_float dbl_400_1
  /\ gFirstMouse (globals (run evs (ViewManager_ctor None))) = false.
Proof.
  cbv zeta.
  assert (H : last_cursor
                [ev_CursorPos (Dbl.of_Z 10) (Dbl.of_Z 20);
                 ev_CursorPos dbl_400_1 dbl_300_3;
                 ev_Scroll lit_0_0f (Dbl.of_Z 1);
                 ev_Frame (mkEnv no_keys dbl_0_5)]
              = Some (dbl_400_1, dbl_300_3)) by reflexivity.
  destruct (cursor_state_tracks_last_event _ _ _ (ViewManager_ctor None) H)
    as (H1 & _ & H3 & _).
  split; [exact H|]. split; [exact H1|exact H3].
Defined.

Lemma cursor_offsets_from_exact_position_witness :
  let w1 := exec (Mouse_Position_Callback (Dbl.of_Z 400) (Dbl.of_Z 300))
                 (ViewManager_ctor None) in
  let w2 := exec (Mouse_Position_Callback (Dbl.of_Z 410) (Dbl.of_Z 290)) w1 in
  single_representable (Dbl.of_Z 400)
  /\ single_representable (Dbl.of_Z 300)
  /\ forwarded_offsets (trace w2) =
       forwarded_offsets (trace w1) ++
       [(Flt.mul (double_to_float (Dbl.sub (Dbl.of_Z 410) (Dbl.of_Z 400)))
                 lit_2_5f,
         Flt.mul (double_to_float (Dbl.sub (Dbl.of_Z 300) (Dbl.of_Z 290)))
                 lit_2_5f)]
  /\ Flt.mul (double_to_float (Dbl.sub (Dbl.of_Z 410) (Dbl.of_Z 400))) lit_2_5f
       = Flt.of_Z 25.
Proof.
  cbv zeta.
  assert (Hx : single_representable (Dbl.of_Z 400)) by (split; reflexivity).
  assert (Hy : single_representable (Dbl.of_Z 300)) by (split; reflexivity).
  split; [exact Hx|]. split; [exact Hy|].
  split; [|reflexivity].
  exact (proj1 (cursor_offsets_from_exact_position
                  (Dbl.of_Z 400) (Dbl.of_Z 300) (Dbl.of_Z 410) (Dbl.of_Z 290)
                  (ViewManager_ctor None) Hx Hy)).
Defined.

Lemma cursor_offsets_follow_direction_witness :
  let x1 := Dbl.of_Z 400 in
  let y1 := Dbl.of_Z 300 in
  let x2 := dbl_400_1 in
  let y2 := dbl_300_3 in
  let w1 := exec (Mouse_Position_Callback x1 y1) (ViewManager_ctor None) in
  let w2 := exec (Mouse_Position_Callback x2 y2) w1 in
  single_representable x1 /\ single_representable y1
  /\ screen_coordinate x1 /\ screen_coordinate y1
  /\ screen_coordinate x2 /\ screen_coordinate y2
  /\ Dbl.leb x1 x2 = true /\ Dbl.leb y1 y2 = true
  /\ exists xo yo,
       forwarded_offsets (trace w2) = forwarded_offsets (trace w1) ++ [(xo, yo)]
       /\ Flt.leb lit_0_0f xo = true /\ Flt.leb yo lit_0_0f = true.
Proof.
  cbv zeta.
  assert (Hx : single_representable (Dbl.of_Z 400)) by (split; reflexivity).
  assert (Hy : single_representable (Dbl.of_Z 300)) by (split; reflexivity).
  assert (S1 : screen_coordinate (Dbl.of_Z 400)) by (repeat split).
  assert (S2 : screen_coordinate (Dbl.of_Z 300)) by (repeat split).
  assert (S3 : screen_coordinate dbl_400_1) by (repeat split).
  assert (S4 : screen_coordinate dbl_300_3) by (repeat split).
  assert (Lx : Dbl.leb (Dbl.of_Z 400) dbl_400_1 = true) by reflexivity.
  assert (Ly : Dbl.leb (Dbl.of_Z 300) dbl_300_3 = true) by reflexivity.
  destruct (cursor_offsets_follow_direction _ _ _ _ (ViewManager_ctor None)
              Hx Hy S1 S2 S3 S4) as (xo & yo & E & Hr & _ & Hd & _).
  repeat (split; [assumption|]).
  exists xo, yo. split; [exact E|]. split; [exact (Hr Lx)|exact (Hd Ly)].
Defined.

Lemma position_multiplier_in_range_witness :
  let evs := [ev_CursorPos (Dbl.of_Z 400) (Dbl.of_Z 300);
              ev_Scroll lit_0_0f S754_nan;
              ev_CursorPos (Dbl.of_Z 400) (Dbl.of_Z 100000);
              ev_CursorPos dbl_2p128 (SFopp dbl_2p128)] in
  Forall cursor_position_is_finite evs
  /\ in_speed_range
       (position_cb_gCameraSpeedMultiplier
          (globals (run evs (ViewManager_ctor None)))).
Proof.
  cbv zeta.
  assert (H : Forall cursor_position_is_finite
                [ev_CursorPos (Dbl.of_Z 400) (Dbl.of_Z 300);
                 ev_Scroll lit_0_0f S754_nan;
                 ev_CursorPos (Dbl.of_Z 400) (Dbl.of_Z 100000);
                 ev_CursorPos dbl_2p128 (SFopp dbl_2p128)])
    by (repeat constructor).
  split; [exact H|].
  exact (position_multiplier_in_range None _ H).
Defined.

Lemma scroll_zero_delta_keeps_multiplier_witness :
  let w := run [ev_Scroll lit_0_0f (Dbl.of_Z 3)] (ViewManager_ctor None) in
  in_speed_range (scroll_cb_gCameraSpeedMultiplier (globals w))
  /\ scroll_cb_gCameraSpeedMultiplier
       (globals (exec (Mouse_Scroll_Callback (Dbl.of_Z 7) (S754_zero true)) w))
     = S754_finite false 10905190 (-23).
Proof.
  cbv zeta.
  set (w := run [ev_Scroll lit_0_0f (Dbl.of_Z 3)] (ViewManager_ctor None)).
  assert (H : in_speed_range (scroll_cb_gCameraSpeedMultiplier (globals w)))
    by (split; reflexivity).
  split; [exact H|].
  exact (scroll_zero_delta_keeps_multiplier (Dbl.of_Z 7) true w H).
Defined.

Lemma clamp_speed_is_a_clamp_witness :
  in_speed_range lit_2_5f /\ clamp_speed lit_2_5f = lit_2_5f
  /\ Flt.ltb lit_10_0f lit_100_0f = true /\ clamp_speed lit_100_0f = lit_10_0f
  /\ Flt.ltb (SFopp lit_5_0f) lit_0_1f = true
  /\ clamp_speed (SFopp lit_5_0f) = lit_0_1f
  /\ is_nan S754_nan = true /\ clamp_speed S754_nan = S754_nan.
Proof.
  assert (H : in_speed_range lit_2_5f) by (split; reflexivity).
  assert (Ha : Flt.ltb lit_10_0f lit_100_0f = true) by reflexivity.
  assert (Hb : Flt.ltb (SFopp lit_5_0f) lit_0_1f = true) by reflexivity.
  assert (Hn : is_nan S754_nan = true) by reflexivity.
  split; [exact H|].
  split; [exact (proj1 (clamp_speed_is_a_clamp lit_2_5f) H)|].
  split; [exact Ha|].
  split; [exact (proj1 (proj2 (proj2 (clamp_speed_is_a_clamp lit_100_0f))) Ha)|].
  split; [exact Hb|].
  split; [exact (proj1 (proj2 (clamp_speed_is_a_clamp (SFopp lit_5_0f))) Hb)|].
  split; [exact Hn|].
  exact (proj1 (proj1 (proj2 (proj2 (proj2 (proj2
           (clamp_speed_is_a_clamp S754_nan))))) Hn)).
Defined.

Lemma perspective_until_O_is_pressed_witness :
  let evs := [ev_Frame (mkEnv (only_key GLFW_KEY_P) dbl_0_5);
              ev_CursorPos (Dbl.of_Z 1) (Dbl.of_Z 2);
              ev_Frame (mkEnv (only_key GLFW_KEY_W) dbl_0_75)] in
  Forall (never_presses GLFW_KEY_O) evs
  /\ bOrthographicProjection (globals (run evs (ViewManager_ctor None))) = false.
Proof.
  cbv zeta.
  assert (H : Forall (never_presses GLFW_KEY_O)
                [ev_Frame (mkEnv (only_key GLFW_KEY_P) dbl_0_5);
                 ev_CursorPos (Dbl.of_Z 1) (Dbl.of_Z 2);
                 ev_Frame (mkEnv (only_key GLFW_KEY_W) dbl_0_75)])
    by (repeat constructor).
  split; [exact H|exact (perspective_until_O_is_pressed None _ H)].
Defined.

Lemma orthographic_until_P_is_pressed_witness :
  let w := run [ev_Frame (mkEnv (only_key GLFW_KEY_O) dbl_0_5)]
               (ViewManager_ctor None) in
  let evs := [ev_Frame (mkEnv no_keys dbl_0_75);
              ev_Scroll lit_0_0f (Dbl.of_Z 1);
              ev_Frame (mkEnv (only_key GLFW_KEY_O) dbl_0_75)] in
  bOrthographicProjection (globals w) = true
  /\ Forall (never_presses GLFW_KEY_P) evs
  /\ bOrthographicProjection (globals (run evs w)) = true.
Proof.
  cbv zeta.
  set (w := run [ev_Frame (mkEnv (only_key GLFW_KEY_O) dbl_0_5)]
                (ViewManager_ctor None)).
  assert (Hw : bOrthographicProjection (globals w) = true) by reflexivity.
  assert (H : Forall (never_presses GLFW_KEY_P)
                [ev_Frame (mkEnv no_keys dbl_0_75);
                 ev_Scroll lit_0_0f (Dbl.of_Z 1);
                 ev_Frame (mkEnv (only_key GLFW_KEY_O) dbl_0_75)])
    by (repeat constructor).
  split; [exact Hw|]. split; [exact H|].
  exact (orthographic_until_P_is_pressed _ w Hw H).
Defined.


Lemma camera_pointer_never_dangles_witness :
  let h := life_run [op_construct None; op_construct (Some 7%positive);
                     op_destruct (mkViewManager None None)] heap_initial in
  heap_g_pCamera h = None
  /\ heap_live h = [1%positive]
  /\ life_step (op_destruct (mkViewManager None None)) h = h.
Proof.
  cbv zeta. split; [reflexivity|]. split; [reflexivity|].
  exact (proj2 (proj2 (proj2 (camera_pointer_never_dangles
                  [op_construct None; op_construct (Some 7%positive)]))
                (mkViewManager None None) (mkViewManager None None))).
Defined.

Lemma second_construction_leaks_the_camera_witness :
  let before := [op_construct None] in
  let after := [op_destruct (mkViewManager None None);
                op_destruct (mkViewManager None None)] in
  heap_g_pCamera (life_run before heap_initial) = Some 1%positive
  /\ In 1%positive
       (heap_live (life_run (before ++ op_construct None :: after)
                            heap_initial)).
Proof.
  cbv zeta.
  assert (H : heap_g_pCamera (life_run [op_construct None] heap_initial)
              = Some 1%positive) by reflexivity.
  split; [exact H|].
  exact (second_construction_leaks_the_camera [op_construct None] _ None _ H).
Defined.
